(** * SwiftGuard: the validation rules, the bounded correction loop and the
      fraud-scoring fan-out, embedded from the Python sources.

    Layout:
    - [Py]                 the fragment of the Python runtime the code relies on
                           (exceptions, binary64 floats, str methods on ASCII text,
                           the interpreter's text functions as a parameter,
                           dynamic values);
    - [BicValidator]       evaluator_optimizer.py, [_validate_bic];
    - [Agents]             base_agents.py and parallelization.py, the three scorers
                           and the aggregator;
    - [CorrectionLoop]     evaluator_optimizer.py, [optimize_message] and the loop;
    - [FanOut]             parallelization.py, [_process_message] and
                           [process_batch_parallel];
    - the vocabulary of the specification and the sample inputs;
    - the properties, component by component. *)

From Stdlib Require Import ZArith List Bool Lia Ascii String.
From Stdlib Require Import Floats.SpecFloat.
From stdpp Require Import base option list gmap strings.

Set Default Proof Using "Type".

(* ===================================================================== *)
(** * The Python runtime fragment *)
(* ===================================================================== *)

Module Py.

(** ** Exceptions

    Only the classes the sources can meet.  [except Exception] catches all
    of them; [except (ValueError, TypeError)] only the first two. *)

Inductive exn : Type :=
| ValueError
| TypeError
| KeyError
| AttributeError
| TimeoutError
| OracleError (msg : string).

Inductive result (A : Type) : Type :=
| Ok (a : A)
| Raise (e : exn).
Arguments Ok {A} a.
Arguments Raise {A} e.

(** Sequencing of statements that may raise: [x ← r; k] runs [k] only
    when [r] returned. *)
#[global] Instance result_ret : MRet result := λ A a, Ok a.
#[global] Instance result_bind : MBind result := λ A B k r,
  match r with
  | Ok a => k a
  | Raise e => Raise e
  end.
#[global] Instance result_fmap : FMap result := λ A B f r,
  match r with
  | Ok a => Ok (f a)
  | Raise e => Raise e
  end.

(** [str(e)], the text of an exception as the error record stores it.  The
    interpreter's wording is stood for by the name of the class. *)
Definition str_of_exn (e : exn) : string :=
  match e with
  | ValueError => "ValueError"
  | TypeError => "TypeError"
  | KeyError => "KeyError"
  | AttributeError => "AttributeError"
  | TimeoutError => "TimeoutError"
  | OracleError msg => msg
  end.

(** ** Sequences: [len], slices with literal bounds

    [s[lo:hi]] for literal [0 <= lo <= hi]; like Python it clamps to the
    sequence and never raises. *)

Definition slice {A} (s : list A) (lo hi : nat) : list A :=
  take (hi - lo) (drop lo s).

(** ** Floats

    Python's [float] is IEEE 754 binary64.  It is embedded through the
    executable specification [SpecFloat] of the standard library at
    precision 53 and maximal exponent 1024, rounding to nearest even.  The
    integers the sources mix with floats (the literal [0], [len(...)], the
    literals [1000] and [10000]) are far below [2^53] and convert exactly,
    so a number is always held as a float here. *)

Definition float : Type := spec_float.
Definition prec : Z := 53.
Definition emax : Z := 1024.

Definition of_Z (z : Z) : float := binary_normalize prec emax z 0 false.

(** The double nearest to the rational [n / d]: what a decimal literal or
    [float("...")] denotes. *)
Definition of_ratio (n : Z) (d : positive) : float :=
  match n with
  | Z0 => S754_zero false
  | Zpos p => SFdiv prec emax (S754_finite false p 0) (S754_finite false d 0)
  | Zneg p => SFdiv prec emax (S754_finite true p 0) (S754_finite false d 0)
  end.

Fixpoint pow10 (k : nat) : positive :=
  match k with
  | O => 1
  | S k' => 10 * pow10 k'
  end.

(** [decimal n k] is the literal with digits [n] and [k] digits after the
    point: [decimal 4 1] is [0.4], [decimal 10 1] is [1.0]. *)
Definition decimal (n : Z) (k : nat) : float := of_ratio n (pow10 k).

Definition fadd : float → float → float := SFadd prec emax.
Definition fmul : float → float → float := SFmul prec emax.
(** [x / y] for [y] that is not zero (the only divisor in the sources is
    the length of a non-empty list). *)
Definition fdiv : float → float → float := SFdiv prec emax.
Definition flt : float → float → bool := SFltb.
Definition fle : float → float → bool := SFleb.
Definition feq : float → float → bool := SFeqb.

Arguments of_Z : simpl never.
Arguments of_ratio : simpl never.
Arguments decimal : simpl never.
Arguments fadd : simpl never.
Arguments fmul : simpl never.
Arguments fdiv : simpl never.
Arguments flt : simpl never.
Arguments fle : simpl never.
Arguments feq : simpl never.

(** [min(a, b)]: the first argument unless the second is smaller. *)
Definition py_min (a b : float) : float := if flt b a then b else a.

(** [sum(xs)]: accumulation from the left, starting at [0], each addition
    rounded (CPython up to 3.11; later versions carry a compensation term
    through float sums, which can move the last bit of the result). *)
Definition py_sum (xs : list float) : float := foldl fadd (of_Z 0) xs.

(** [x % d] for a positive integer literal [d].  The remainder of a float
    division is exact; Python gives it the sign of the divisor. *)
Definition py_mod (x : float) (d : positive) : float :=
  match x with
  | S754_nan | S754_infinity _ => S754_nan
  | S754_zero _ => S754_zero false
  | S754_finite sx mx ex =>
      let e := Z.min ex 0 in
      let X := (Zpos mx * 2 ^ (ex - e))%Z in
      let Y := (Zpos d * 2 ^ (0 - e))%Z in
      let R := (X mod Y)%Z in
      if (R =? 0)%Z then S754_zero false
      else if sx then binary_normalize prec emax (Y - R) e false
      else binary_normalize prec emax R e false
  end.

(** [round(x, ndigits)] for [ndigits >= 0]: the decimal with [ndigits]
    places nearest to the exact value of [x] (ties to even), then the
    double nearest to that decimal. *)
Definition round_half_even (num den : Z) : Z :=
  let q := (num / den)%Z in
  let r := (num mod den)%Z in
  match (2 * r ?= den)%Z with
  | Lt => q
  | Gt => (q + 1)%Z
  | Eq => if Z.even q then q else (q + 1)%Z
  end.

Definition py_round (x : float) (ndigits : nat) : float :=
  match x with
  | S754_finite s m e =>
      let p10 := pow10 ndigits in
      let k := if (0 <=? e)%Z
               then (Zpos m * 2 ^ e * Zpos p10)%Z
               else round_half_even (Zpos m * Zpos p10) (2 ^ (- e)) in
      match k with
      | Z0 => S754_zero s
      | _ => of_ratio (if s then - k else k)%Z p10
      end
  | _ => x
  end.

(** ** Strings

    A [str] value is held as a [string].  The functions of this part are
    Python's on ASCII text, where every literal of the sources lives; on
    other text the interpreter goes by its Unicode tables, which these
    functions do not know.  They are used where the text is ASCII
    ([isascii]), and as the ASCII instance of the interpreter's text
    functions ([ascii_text] below), over which the scorers are embedded. *)

Definition code (c : ascii) : nat := nat_of_ascii c.
Definition between (lo hi n : nat) : bool := (lo <=? n) && (n <=? hi).

(** [s.isascii()]. *)
Definition ch_isascii (c : ascii) : bool := code c <? 128.

Definition ch_isdigit (c : ascii) : bool := between 48 57 (code c).
Definition ch_isupper (c : ascii) : bool := between 65 90 (code c).
Definition ch_islower (c : ascii) : bool := between 97 122 (code c).
Definition ch_isalpha (c : ascii) : bool := ch_isupper c || ch_islower c.
Definition ch_isalnum (c : ascii) : bool := ch_isalpha c || ch_isdigit c.
(** [str.isspace] on ASCII: TAB, LF, VT, FF, CR, the four separators
    FS, GS, RS, US, and the blank. *)
Definition ch_isspace (c : ascii) : bool :=
  between 9 13 (code c) || between 28 32 (code c).

Definition ch_upper (c : ascii) : ascii :=
  if ch_islower c then ascii_of_nat (code c - 32) else c.
Definition ch_lower (c : ascii) : ascii :=
  if ch_isupper c then ascii_of_nat (code c + 32) else c.

Fixpoint str_map (f : ascii → ascii) (s : string) : string :=
  match s with
  | EmptyString => EmptyString
  | String c s' => String (f c) (str_map f s')
  end.

(** [s.upper()] and [s.lower()] on ASCII text. *)
Definition upper : string → string := str_map ch_upper.
Definition lower : string → string := str_map ch_lower.

Fixpoint str_filter (f : ascii → bool) (s : string) : string :=
  match s with
  | EmptyString => EmptyString
  | String c s' => if f c then String c (str_filter f s') else str_filter f s'
  end.

Fixpoint str_forall (f : ascii → bool) (s : string) : bool :=
  match s with
  | EmptyString => true
  | String c s' => f c && str_forall f s'
  end.

Definition isascii (s : string) : bool := str_forall ch_isascii s.

Definition chars (s : string) : list ascii := list_ascii_of_string s.

(** [sub in s] on two strs. *)
Fixpoint contains (sub s : string) : bool :=
  String.prefix sub s ||
  match s with
  | EmptyString => false
  | String _ s' => contains sub s'
  end.

(** [s[lo:hi]] on a str. *)
Definition str_slice (s : string) (lo hi : nat) : string :=
  string_of_list_ascii (slice (chars s) lo hi).

(** [s.isdigit()] on ASCII text. *)
Definition str_isdigit (s : string) : bool :=
  negb (String.eqb s "") && str_forall ch_isdigit s.

(** [s.split()]: the maximal runs of non-blank characters, in order. *)
Definition flush (tok : string) : list string :=
  match tok with
  | EmptyString => []
  | _ => [tok]
  end.

Fixpoint split_from (tok s : string) : list string :=
  match s with
  | EmptyString => flush tok
  | String c s' =>
      if ch_isspace c then flush tok ++ split_from "" s'
      else split_from (tok +:+ String c "") s'
  end.

Definition split (s : string) : list string := split_from "" s.

(** [float(s)] for a str made of ASCII digits and dots only, which is all
    the amount scorer passes when its amount is ASCII text: it needs at
    least one digit and at most one dot, and denotes the nearest double.
    The rest of the grammar of [float] (signs, exponents, blanks, inf, nan,
    other decimal digits) is not embedded: such a str is refused. *)
Definition digit_val (c : ascii) : Z := Z.of_nat (code c - 48).

Fixpoint digits_val (acc : Z) (s : string) : Z :=
  match s with
  | EmptyString => acc
  | String c s' => digits_val (10 * acc + digit_val c) s'
  end.

Fixpoint cut_at_dot (s : string) : string * option string :=
  match s with
  | EmptyString => (EmptyString, None)
  | String c s' =>
      if Ascii.eqb c "." then (EmptyString, Some s')
      else let '(a, b) := cut_at_dot s' in (String c a, b)
  end.

Definition float_of_digits (s : string) : result float :=
  let '(int_part, rest) := cut_at_dot s in
  let frac_part := default EmptyString rest in
  if negb (str_forall ch_isdigit int_part) then Raise ValueError
  else if negb (str_forall ch_isdigit frac_part) then Raise ValueError
  else if String.eqb (int_part +:+ frac_part) "" then Raise ValueError
  else Ok (of_ratio (digits_val 0 (int_part +:+ frac_part))
                    (pow10 (String.length frac_part))).

(** ** Dynamic values

    What a message key can hold: [None], a number, a str, a list of strs
    (the error and reason lists) or the list of per-agent records that the
    fan-out stores under ['fraud_analysis'].  A per-agent record is the
    dict an agent returns; ['message_id'] and ['error'] are the two keys
    only some records have. *)

Record AgentScore_ (V : Type) : Type := mkScore {
  agent : string;
  risk_score : float;
  fraud_reasons : list string;
  message_id : option V;
  error : option string
}.
Arguments mkScore {V}.
Arguments agent {V}.
Arguments risk_score {V}.
Arguments fraud_reasons {V}.
Arguments message_id {V}.
Arguments error {V}.

#[local] Set Warnings "-register-all".
Inductive pyval : Type :=
| VNone
| VNum (x : float)
| VStr (s : string)
| VStrs (l : list string)
| VScores (l : list (AgentScore_ pyval)).

Definition AgentScore : Type := AgentScore_ pyval.

(** A message is a dict with str keys. *)
Abbreviation message := (gmap string pyval).

(** [d.get(key, default)]. *)
Definition get (d : message) (key : string) (dflt : pyval) : pyval :=
  default dflt (d !! key).

(** Truth value of an object ([if v], [v or w]). *)
Definition truthy (v : pyval) : bool :=
  match v with
  | VNone => false
  | VNum x => negb (feq x (of_Z 0))
  | VStr s => negb (String.eqb s "")
  | VStrs l => negb (bool_decide (l = []))
  | VScores l => match l with [] => false | _ => true end
  end.

(** [v[lo:hi]]: strs and lists can be sliced, [None] and numbers cannot. *)
Definition py_slice (v : pyval) (lo hi : nat) : result pyval :=
  match v with
  | VStr s => Ok (VStr (str_slice s lo hi))
  | VStrs l => Ok (VStrs (slice l lo hi))
  | VScores l => Ok (VScores (slice l lo hi))
  | VNone | VNum _ => Raise TypeError
  end.

Fixpoint join (l : list string) : string :=
  match l with
  | [] => EmptyString
  | s :: l' => s +:+ join l'
  end.

(** ** The text functions of the interpreter

    [str.upper], [str.lower], [str.isdigit], the iteration over a str
    (which yields its characters, each one a str) and [float] on a str go
    by the Unicode tables of the interpreter, which are no part of the
    repository.  The scorers call them on whatever text a message brings,
    so the scorers are embedded over any five such functions.  [float] on a
    str returns a float or raises ValueError, hence the option. *)
Record text : Type := mkText {
  to_upper : string → string;
  to_lower : string → string;
  characters : string → list string;
  isdigit : string → bool;
  to_float : string → option float
}.

(** What the five functions are on ASCII text. *)
Definition ascii_text : text :=
  mkText upper lower
         (λ s, (λ c, String c EmptyString) <$> chars s)
         str_isdigit
         (λ s, match float_of_digits s with
               | Ok x => Some x
               | Raise _ => None
               end).

(** [v.upper()] and [v.lower()] exist on strs only. *)
Definition py_upper (rt : text) (v : pyval) : result string :=
  match v with
  | VStr s => Ok (to_upper rt s)
  | _ => Raise AttributeError
  end.

Definition py_lower (rt : text) (v : pyval) : result string :=
  match v with
  | VStr s => Ok (to_lower rt s)
  | _ => Raise AttributeError
  end.

(** [float(s)] on a str. *)
Definition py_float (rt : text) (s : string) : result float :=
  match to_float rt s with
  | Some x => Ok x
  | None => Raise ValueError
  end.

End Py.

Import Py.

(* ===================================================================== *)
(** * BIC shape validation (evaluator_optimizer.py, [_validate_bic]) *)
(* ===================================================================== *)

(** A Python [str] is a sequence of code points.  The validator asks only
    two questions of a code point, so it is embedded over any code-point
    type [ch] with the two classifications behind [str.isalpha] and
    [str.isalnum]; [validate_bic_ascii] below is its instance on ASCII
    text, where a code point is a byte and the classifications are the
    ASCII ones. *)

Section BicValidator.
Context {ch : Type}.
Variable ch_alpha ch_alnum : ch → bool.

(** [s.isalpha()]: at least one character and all of them alphabetic. *)
Definition isalpha (s : list ch) : bool :=
  match s with
  | [] => false
  | _ => forallb ch_alpha s
  end.

(** [s.isalnum()]. *)
Definition isalnum (s : list ch) : bool :=
  match s with
  | [] => false
  | _ => forallb ch_alnum s
  end.

Definition _validate_bic (bic : list ch) : bool :=
  if match bic with [] => true | _ => false end then false
  else if negb (bool_decide (length bic ∈ [8; 11])) then false
  else if negb (isalpha (slice bic 0 4)) then false
  else if negb (isalpha (slice bic 4 6)) then false
  else if negb (isalnum (slice bic 6 8)) then false
  else if bool_decide (length bic = 11) && negb (isalnum (slice bic 8 11))
    then false
  else true.

(** The shape in the words of the specification. *)
Definition chars_are (P : ch → bool) (s : list ch) (lo hi : nat) : Prop :=
  ∀ i c, lo ≤ i < hi → s !! i = Some c → P c = true.

Definition bic_shape (bic : list ch) : Prop :=
  (length bic = 8 ∨ length bic = 11)
  ∧ chars_are ch_alpha bic 0 4
  ∧ chars_are ch_alpha bic 4 6
  ∧ chars_are ch_alnum bic 6 8
  ∧ (length bic = 11 → chars_are ch_alnum bic 8 11).

End BicValidator.

(** The validator on ASCII text. *)
Definition validate_bic_ascii (bic : string) : bool :=
  _validate_bic ch_isalpha ch_isalnum (chars bic).

(* ===================================================================== *)
(** * The scoring agents and the aggregator
      (base_agents.py, parallelization.py) *)
(* ===================================================================== *)

Module Agents.

(** The loop state of every [analyze]: [risk_score] and [fraud_reasons]. *)
Definition tally : Type := float * list string.

Definition bump (st : tally) (weight : float) (reason : string) : tally :=
  (fadd st.1 weight, st.2 ++ [reason]).

(** ** FraudAmountDetectionAgent *)

Section AmountAgent.
Variable rt : text.
(** [f"{amount}"], the text Python prints for a float.  The digits never
    influence a score, so the formatter stays a parameter. *)
Variable float_text : float → string.

(** [''.join(c for c in amount_str if c.isdigit() or c == '.')].
    Iterating a str yields its characters, iterating a list its items;
    [None] and numbers are not iterable (TypeError) and a dict item has no
    [isdigit] (AttributeError). *)
Definition digits_and_dots (amount_str : pyval) : result string :=
  match amount_str with
  | VStr s =>
      Ok (join (filter (λ c, isdigit rt c || String.eqb c ".") (characters rt s)))
  | VStrs l => Ok (join (filter (λ c, isdigit rt c || String.eqb c ".") l))
  | VScores [] => Ok EmptyString
  | VScores (_ :: _) => Raise AttributeError
  | VNone | VNum _ => Raise TypeError
  end.

Definition amount_rules (amount : float) : tally :=
  let st : tally := (of_Z 0, []) in
  let st :=
    if flt (of_Z 10000) amount
    then bump st (decimal 3 1) ("High amount transaction: " +:+ float_text amount)
    else st in
  let st :=
    if feq (py_mod amount 1000) (of_Z 0) && flt (of_Z 0) amount
    then bump st (decimal 2 1) ("Suspiciously round amount: " +:+ float_text amount)
    else st in
  let st :=
    if flt (of_Z 100000) amount && negb (feq (py_mod amount 1) (of_Z 0))
    then bump st (decimal 1 1) "Large amount with unusual decimal precision"
    else st in
  st.

(** The body of the [try]: only its first two statements can raise, so an
    exception always leaves the tally at its initial value. *)
Definition amount_try (m : message) : result tally :=
  let amount_str := get m "amount" (VStr "0") in
  text ← digits_and_dots amount_str;
  amount ← py_float rt text;
  Ok (amount_rules amount).

Definition amount_analyze (m : message) : result AgentScore :=
  let finish (st : tally) : AgentScore :=
    mkScore "FraudAmountDetectionAgent" (py_min st.1 (decimal 10 1)) st.2
            None None in
  match amount_try m with
  | Ok st => Ok (finish st)
  | Raise ValueError | Raise TypeError => Ok (finish (of_Z 0, []))
  | Raise e => Raise e
  end.

End AmountAgent.

(** ** FraudPatternDetectionAgent *)

Definition high_risk_patterns : list string :=
  ["TEST"; "FAKE"; "DEMO"; "999"; "000000"].
Definition suspicious_keywords : list string :=
  ["urgent"; "immediately"; "secret"; "confidential"].

Section PatternAgent.
Variable rt : text.

(** [pattern in sender_bic.upper() or pattern in receiver_bic.upper()]:
    the right operand is evaluated only when the left one is false. *)
Definition bic_hit (pattern : string) (sender_bic receiver_bic : pyval)
  : result bool :=
  su ← py_upper rt sender_bic;
  if contains pattern su then Ok true
  else ru ← py_upper rt receiver_bic; Ok (contains pattern ru).

Fixpoint pattern_loop (patterns : list string) (sender_bic receiver_bic : pyval)
  (st : tally) : result tally :=
  match patterns with
  | [] => Ok st
  | pattern :: rest =>
      hit ← bic_hit pattern sender_bic receiver_bic;
      pattern_loop rest sender_bic receiver_bic
        (if hit : bool
         then bump st (decimal 4 1)
                ("Test/fake pattern detected in BIC: " +:+ pattern)
         else st)
  end.

(** [sender_bic and sender_bic == receiver_bic].  The loop above has
    already called [sender_bic.upper()], so the sender is a str here, and
    a str equals only a str with the same characters. *)
Definition same_bic (sender_bic receiver_bic : pyval) : bool :=
  match sender_bic, receiver_bic with
  | VStr s, VStr r => negb (String.eqb s "") && String.eqb s r
  | _, _ => false
  end.

Fixpoint keyword_loop (keywords : list string) (remittance : string)
  (st : tally) : tally :=
  match keywords with
  | [] => st
  | keyword :: rest =>
      keyword_loop rest remittance
        (if contains keyword remittance
         then bump st (decimal 2 1)
                ("Suspicious keyword in remittance: " +:+ keyword)
         else st)
  end.

Definition pattern_analyze (m : message) : result AgentScore :=
  let sender_bic := get m "sender_bic" (VStr "") in
  let receiver_bic := get m "receiver_bic" (VStr "") in
  st ← pattern_loop high_risk_patterns sender_bic receiver_bic (of_Z 0, []);
  let st :=
    if same_bic sender_bic receiver_bic
    then bump st (decimal 5 1) "Same sender and receiver BIC"
    else st in
  let info := get m "remittance_info" VNone in
  remittance ← py_lower rt (if truthy info then info else VStr "");
  let st := keyword_loop suspicious_keywords remittance st in
  Ok (mkScore "FraudPatternDetectionAgent" (py_min st.1 (decimal 10 1)) st.2
              None None).

End PatternAgent.

(** ** GeographicRiskAgent *)

Definition HIGH_RISK_COUNTRIES : list string := ["IR"; "KP"; "SY"; "AF"].

(** [country in HIGH_RISK_COUNTRIES] on what a slice can return: a str is
    looked up, a list is unhashable (TypeError).  [Some c] is a hit. *)
Definition high_risk (country : pyval) : result (option string) :=
  match country with
  | VStr c => Ok (if bool_decide (c ∈ HIGH_RISK_COUNTRIES) then Some c else None)
  | VNone | VNum _ => Ok None
  | VStrs _ | VScores _ => Raise TypeError
  end.

(** The [try] block with its [except Exception: pass]: whatever raises,
    the tally keeps what was added before. *)
Definition geo_try (sender_bic receiver_bic : pyval) : tally :=
  let st : tally := (S754_zero false, []) in
  match py_slice sender_bic 4 6 with
  | Raise _ => st
  | Ok sender_country =>
  match py_slice receiver_bic 4 6 with
  | Raise _ => st
  | Ok receiver_country =>
  match high_risk sender_country with
  | Raise _ => st
  | Ok sender_hit =>
      let st :=
        match sender_hit with
        | Some c => bump st (decimal 4 1) ("High-risk sender country: " +:+ c)
        | None => st
        end in
      match high_risk receiver_country with
      | Raise _ => st
      | Ok (Some c) => bump st (decimal 4 1) ("High-risk receiver country: " +:+ c)
      | Ok None => st
      end
  end end end.

Definition geo_analyze (m : message) : AgentScore :=
  let sender_bic := get m "sender_bic" (VStr "") in
  let receiver_bic := get m "receiver_bic" (VStr "") in
  let st := geo_try sender_bic receiver_bic in
  mkScore "GeographicRiskAgent" (py_min st.1 (decimal 10 1)) st.2 None None.

(** ** FraudAggAgent *)

Record AggregateVerdict : Type := mkVerdict {
  is_fraudulent : bool;
  confidence : float;
  total_risk_score : float;
  aggregated_reasons : list string
}.

Definition threshold : float := decimal 5 1.

(** The two nested [for] loops appending to [all_reasons]. *)
Definition reasons_of (all_reasons : list string) (r : AgentScore) : list string :=
  foldl (λ acc reason, acc ++ ["[" +:+ agent r +:+ "] " +:+ reason])
        all_reasons (fraud_reasons r).

Definition aggregate_results (fraud_results : list AgentScore) : AggregateVerdict :=
  match fraud_results with
  | [] => mkVerdict false (of_Z 0) (of_Z 0) []
  | _ =>
      let total_risk := py_sum (risk_score <$> fraud_results) in
      let avg_risk := fdiv total_risk (of_Z (Z.of_nat (length fraud_results))) in
      let all_reasons := foldl reasons_of [] fraud_results in
      let is_fraudulent := fle threshold avg_risk in
      mkVerdict is_fraudulent
                (py_round (fmul avg_risk (of_Z 100)) 2)
                (py_round avg_risk 3)
                all_reasons
  end.

End Agents.

Import Agents.

(* ===================================================================== *)
(** * The bounded correction loop (evaluator_optimizer.py) *)
(* ===================================================================== *)

Module CorrectionLoop.

Definition MAX_ITERATIONS : nat := 3.

(** The two calls the loop makes to the language-model service. *)
Inductive call : Type := Evaluation | Correction.

#[global] Instance call_eq_dec : EqDecision call.
Proof. solve_decision. Defined.

Definition evaluations (log : list call) : nat := count_occ call_eq_dec log Evaluation.
Definition corrections (log : list call) : nat := count_occ call_eq_dec log Correction.

Section Loop.
(** The service is outside the repository.  It is any pair of functions of
    a state of its own: an evaluation returns the verdict
    [(is_valid, errors)] or raises; a correction returns a dict
    ([Some d]), some other object ([None]) or raises. *)
Context {Σ : Type}.
Variable evaluation_oracle : Σ → message → Σ * result (bool * list string).
Variable correction_oracle :
  Σ → message → list string → Σ * result (option message).

(** The service state and the log of the calls made so far. *)
Record world : Type := mkWorld { oracle_state : Σ; calls : list call }.

Definition evaluate_message (w : world) (m : message)
  : world * result (bool * list string) :=
  let '(σ, r) := evaluation_oracle (oracle_state w) m in
  (mkWorld σ (calls w ++ [Evaluation]), r).

(** [SwiftCorrectionAgent.respond]: the reply of the service, or the
    message itself when the call raised. *)
Definition respond (w : world) (m : message) (errors : list string)
  : world * option message :=
  let '(σ, r) := correction_oracle (oracle_state w) m errors in
  (mkWorld σ (calls w ++ [Correction]),
   match r with
   | Ok corrected => corrected
   | Raise _ => Some m
   end).

(** The repair after the [try]: a str amount of exactly one blank-free
    part gets [" USD"] appended. *)
Definition repair_amount (m : message) : message :=
  match m !! "amount" with
  | Some (VStr amount) =>
      match split amount with
      | [part] => <["amount" := VStr (part +:+ " USD")]> m
      | _ => m
      end
  | _ => m
  end.

(** [message.update(corrected_message)] when the reply is a dict. *)
Definition merge (m : message) (corrected_message : option message) : message :=
  match corrected_message with
  | Some d => d ∪ m
  | None => m
  end.

Definition optimize_message (w : world) (m : message) (errors : list string)
  : world * message :=
  let '(w, corrected_message) := respond w m errors in
  (w, repair_amount (merge m corrected_message)).

Definition mark (status : string) (errors : list string) (m : message) : message :=
  <["validation_errors" := VStrs errors]> (<["validation_status" := VStr status]> m).

(** [for iteration in range(MAX_ITERATIONS)] over one message; an
    exception of the evaluation call is not caught and leaves the loop. *)
Fixpoint iterate (iterations : list nat) (w : world) (m : message)
  : world * result message :=
  match iterations with
  | [] => (w, Ok m)
  | iteration :: rest =>
      let '(w, r) := evaluate_message w m in
      match r with
      | Raise e => (w, Raise e)
      | Ok (is_valid, errors) =>
          if is_valid : bool then (w, Ok (mark "VALID" [] m))
          else if bool_decide (iteration < MAX_ITERATIONS - 1) then
            let '(w, m) := optimize_message w m errors in
            iterate rest w m
          else iterate rest w (mark "INVALID" errors m)
      end
  end.

Definition correct_message (w : world) (m : message) : world * result message :=
  iterate (seq 0 MAX_ITERATIONS) w m.

Fixpoint process_with_evaluator_optimizer (w : world) (messages : list message)
  : world * result (list message) :=
  match messages with
  | [] => (w, Ok [])
  | m :: rest =>
      let '(w, r) := correct_message w m in
      match r with
      | Raise e => (w, Raise e)
      | Ok m' =>
          let '(w, rs) := process_with_evaluator_optimizer w rest in
          (w, optimized ← rs; Ok (m' :: optimized))
      end
  end.

End Loop.

(** "Carries an explicit currency token": a str with an amount part and
    at least one more part after it. *)
Definition carries_currency (amount : pyval) : bool :=
  match amount with
  | VStr s => bool_decide (2 ≤ length (split s))
  | _ => false
  end.

End CorrectionLoop.

(* ===================================================================== *)
(** * The fan-out over agents and messages (parallelization.py) *)
(* ===================================================================== *)

Module FanOut.

(** An agent object: its class name and its [analyze] method. *)
Record scorer : Type := mkScorer {
  class_name : string;
  analyze : message → result AgentScore
}.

Definition list_of_agents (rt : text) (float_text : float → string) : list scorer :=
  [ mkScorer "FraudAmountDetectionAgent" (amount_analyze rt float_text);
    mkScorer "FraudPatternDetectionAgent" (pattern_analyze rt);
    mkScorer "GeographicRiskAgent" (λ m, Ok (geo_analyze m)) ].

Definition _process_message (m : message) (a : scorer) : AgentScore :=
  match analyze a m with
  | Ok result =>
      mkScore (agent result) (risk_score result) (fraud_reasons result)
              (Some (get m "message_id" (VStr "unknown"))) (error result)
  | Raise e => mkScore (class_name a) (of_Z 0) [] None (Some (str_of_exn e))
  end.

(** Dict keys.  [None], numbers and strs are hashable, lists are not. *)
Inductive key : Type := KNone | KNum (x : float) | KStr (s : string).

Definition hashable (v : pyval) : result key :=
  match v with
  | VNone => Ok KNone
  | VNum x => Ok (KNum x)
  | VStr s => Ok (KStr s)
  | VStrs _ | VScores _ => Raise TypeError
  end.

Definition key_eqb (a b : key) : bool :=
  match a, b with
  | KNone, KNone => true
  | KNum x, KNum y => feq x y
  | KStr s, KStr t => String.eqb s t
  | _, _ => false
  end.

(** [d[k] = v] on an insertion-ordered dict: an existing key keeps its
    place and gets the new value, a new key goes last. *)
Fixpoint dict_set {V} (k : key) (v : V) (d : list (key * V)) : list (key * V) :=
  match d with
  | [] => [(k, v)]
  | (k', v') :: d' =>
      if key_eqb k' k then (k', v) :: d' else (k', v') :: dict_set k v d'
  end.

Fixpoint dict_get {V} (k : key) (d : list (key * V)) : option V :=
  match d with
  | [] => None
  | (k', v') :: d' => if key_eqb k' k then Some v' else dict_get k d'
  end.

(** [message['message_id']] used as a dict key. *)
Definition id_key (m : message) : result key :=
  match m !! "message_id" with
  | Some v => hashable v
  | None => Raise KeyError
  end.

(** A future: what [future.result(timeout=5)] does when it is asked,
    return the task's value or raise. *)
Definition future : Type := result AgentScore.

Record msg_data : Type := mkData { data_message : message; data_futures : list future }.

Section Scheduler.
Variable agents : list scorer.
(** [timed_out i j]: the task of agent [j] on the [i]-th message of the
    batch does not deliver within the timeout.  The pool decides this, not
    the code, so it is a parameter. *)
Variable timed_out : nat → nat → bool.

Definition submit (i j : nat) (m : message) (a : scorer) : future :=
  if timed_out i j then Raise TimeoutError else Ok (_process_message m a).

Definition submit_agents (i : nat) (m : message) : list future :=
  imap (λ j a, submit i j m a) agents.

(** The submission loop, from the [i]-th message on. *)
Fixpoint submit_all (i : nat) (messages : list message)
  (future_to_msg : list (key * msg_data)) : result (list (key * msg_data)) :=
  match messages with
  | [] => Ok future_to_msg
  | m :: rest =>
      let agent_futures := submit_agents i m in
      k ← id_key m;
      submit_all (S i) rest (dict_set k (mkData m agent_futures) future_to_msg)
  end.

(** The inner collection loop: a future that raises is skipped. *)
Definition collect (futures : list future) : list AgentScore :=
  foldl (λ agent_results f,
           match f with
           | Ok r => agent_results ++ [r]
           | Raise _ => agent_results
           end) [] futures.

Definition annotate (m : message) (agent_results : list AgentScore) : message :=
  let aggregated := aggregate_results agent_results in
  <["fraud_reasons" := VStrs (aggregated_reasons aggregated)]>
    (<["fraud_score" := VNum (confidence aggregated)]>
       (<["fraud_status" :=
            VStr (if is_fraudulent aggregated then "FRAUDULENT" else "CLEAN")]>
          (<["fraud_analysis" := VScores agent_results]> m))).

Definition join_entry (d : msg_data) : message :=
  annotate (data_message d) (collect (data_futures d)).

Definition process_batch_parallel (messages : list message)
  : result (list message) :=
  future_to_msg ← submit_all 0 messages [];
  Ok (foldl (λ processed_messages entry,
               processed_messages ++ [join_entry entry.2])
            [] future_to_msg).

End Scheduler.

End FanOut.

(* ===================================================================== *)
(** * The pipeline (main.py) *)
(* ===================================================================== *)

Module Main.

Section Stages.
Context {Σ : Type}.
Variable evaluation_oracle : Σ → message → Σ * result (bool * list string).
Variable correction_oracle :
  Σ → message → list string → Σ * result (option message).
Variable agents : list FanOut.scorer.
Variable timed_out : nat → nat → bool.

(** Steps 1 and 2 of [SWIFTProcessingSystem.run]: the correction loop over
    the batch, then the fan-out over what it returned.  An exception of
    either stage leaves [run]. *)
Definition validate_then_score (w : CorrectionLoop.world) (messages : list message)
  : CorrectionLoop.world * result (list message) :=
  let '(w, r) :=
    CorrectionLoop.process_with_evaluator_optimizer
      evaluation_oracle correction_oracle w messages in
  (w, validated_messages ← r;
      FanOut.process_batch_parallel agents timed_out validated_messages).

End Stages.

(** [msg.get('fraud_status') != "FRAUDULENT"], the filter of step 4. *)
Definition not_fraudulent (msg : message) : bool :=
  match msg !! "fraud_status" with
  | Some (VStr status) => negb (String.eqb status "FRAUDULENT")
  | _ => true
  end.

Definition clean_messages (messages : list message) : list message :=
  List.filter not_fraudulent messages.

End Main.

(* ===================================================================== *)
(** * The vocabulary of the specification *)
(* ===================================================================== *)

(** The properties below compare the embedded code with what the
    specification says in its own words.  This part holds those words, and
    the sample inputs the properties are instantiated at. *)

Import CorrectionLoop.
Import FanOut.

(** ** Messages as the data model types them *)

(** A BIC is a str, the empty one when the key is missing. *)
Definition bic_text (m : message) (key : string) : option string :=
  match m !! key with
  | None => Some ""
  | Some (VStr s) => Some s
  | Some _ => None
  end.

(** The remittance text is optional. *)
Definition remittance_text (m : message) : option string :=
  match m !! "remittance_info" with
  | None | Some VNone => Some ""
  | Some (VStr s) => Some s
  | Some _ => None
  end.

(** The amount is a str; a message without the key counts as ["0"]. *)
Definition amount_text (m : message) : option string :=
  match m !! "amount" with
  | None => Some "0"
  | Some (VStr s) => Some s
  | Some _ => None
  end.

(** The message carries the str [id] under ['message_id']. *)
Definition has_id (m : message) (id : string) : Prop :=
  m !! "message_id" = Some (VStr id).

(** ** Scores *)

(** What a rule adds: its weight when it fires, nothing otherwise. *)
Definition adds (fires : bool) (weight : float) : float :=
  if fires then weight else of_Z 0.

(** Adding [weight] once per item. *)
Definition add_per {A} (items : list A) (weight : float) (s : float) : float :=
  foldr (λ _ acc, fadd acc weight) s (rev items).

(** ** The amount agent *)

(** Stripping every character that is neither a digit nor a dot. *)
Definition strip_amount (rt : text) (s : string) : string :=
  join (filter (λ c, isdigit rt c || String.eqb c ".") (characters rt s)).

Definition exceeds (amount : float) (bound : Z) : bool := flt (of_Z bound) amount.

Definition positive_multiple_of_1000 (amount : float) : bool :=
  feq (py_mod amount 1000) (of_Z 0) && flt (of_Z 0) amount.

Definition non_integral_remainder (amount : float) : bool :=
  negb (feq (py_mod amount 1) (of_Z 0)).

Definition amount_score (amount : float) : float :=
  fadd (fadd (fadd (of_Z 0)
                   (adds (exceeds amount 10000) (decimal 3 1)))
             (adds (positive_multiple_of_1000 amount) (decimal 2 1)))
       (adds (exceeds amount 100000 && non_integral_remainder amount) (decimal 1 1)).

Definition amount_record (risk : float) (reasons : list string) : AgentScore :=
  mkScore "FraudAmountDetectionAgent" risk reasons None None.

(** ** The pattern agent *)

(** A pattern is found when it occurs in either BIC, whatever the case of
    the BIC; a keyword when it occurs in the text, whatever its case. *)
Definition pattern_found (rt : text) (sender receiver pattern : string) : bool :=
  contains pattern (to_upper rt sender) || contains pattern (to_upper rt receiver).

Definition keyword_found (rt : text) (text keyword : string) : bool :=
  contains keyword (to_lower rt text).

Definition same_nonempty (sender receiver : string) : bool :=
  negb (String.eqb sender "") && String.eqb sender receiver.

Definition pattern_score (rt : text) (sender receiver text : string) : float :=
  let s := add_per (List.filter (pattern_found rt sender receiver) high_risk_patterns)
                   (decimal 4 1) (of_Z 0) in
  let s := if same_nonempty sender receiver then fadd s (decimal 5 1) else s in
  add_per (List.filter (keyword_found rt text) suspicious_keywords) (decimal 2 1) s.

(** The reasons the agent gives on text inputs. *)
Definition pattern_reasons (rt : text) (sender receiver text : string) : list string :=
  ((λ p, "Test/fake pattern detected in BIC: " +:+ p)
     <$> List.filter (pattern_found rt sender receiver) high_risk_patterns)
  ++ (if same_nonempty sender receiver then ["Same sender and receiver BIC"] else [])
  ++ ((λ k, "Suspicious keyword in remittance: " +:+ k)
        <$> List.filter (keyword_found rt text) suspicious_keywords).

Definition pattern_record (risk : float) (reasons : list string) : AgentScore :=
  mkScore "FraudPatternDetectionAgent" risk reasons None None.

(** ** The geographic agent *)

(** The country code of a BIC: its characters 4 and 5. *)
Definition country_of (bic : string) : string := str_slice bic 4 6.

Definition is_high_risk (country : string) : bool :=
  bool_decide (country ∈ HIGH_RISK_COUNTRIES).

Definition geo_score (sender receiver : string) : float :=
  fadd (fadd (S754_zero false)
             (adds (is_high_risk (country_of sender)) (decimal 4 1)))
       (adds (is_high_risk (country_of receiver)) (decimal 4 1)).

Definition geo_reasons (sender receiver : string) : list string :=
  (if is_high_risk (country_of sender)
   then ["High-risk sender country: " +:+ country_of sender] else [])
  ++ (if is_high_risk (country_of receiver)
      then ["High-risk receiver country: " +:+ country_of receiver] else []).

Definition geo_record (risk : float) (reasons : list string) : AgentScore :=
  mkScore "GeographicRiskAgent" risk reasons None None.

(** ** The aggregator *)

(** The reasons agent by agent, and within an agent reason by reason, each
    with the agent's name in front. *)
Definition tagged_reasons (scores : list AgentScore) : list string :=
  r ← scores; (λ reason, "[" +:+ agent r +:+ "] " +:+ reason) <$> fraud_reasons r.

(** ** The correction loop *)

Definition blank_free (s : string) : Prop :=
  str_forall (λ c, negb (ch_isspace c)) s = true.

(** The amount of a message is not a lone part waiting for its currency. *)
Definition amount_settled (m : message) : Prop :=
  ∀ s, m !! "amount" = Some (VStr s) → length (split s) ≠ 1.

(** The iterations that may correct: those before the last one. *)
Definition may_correct (iterations : list nat) : list nat :=
  filter (λ iteration, iteration < MAX_ITERATIONS - 1) iterations.

(** ** The fan-out *)

(** The submission loop seen as a fold of [dict_set] over str keys. *)
Definition build {V} (d : list (key * V)) (es : list (string * V))
  : list (key * V) :=
  foldl (λ d e, dict_set (KStr e.1) e.2 d) d es.

Section FanOutVocabulary.
Variable agents : list scorer.
Variable timed_out : nat → nat → bool.

(** The verdict on the [i]-th message of the batch: the message annotated
    with the aggregate of those of its own tasks that delivered. *)
Definition verdict (i : nat) (m : message) : message :=
  annotate m (collect (submit_agents agents timed_out i m)).

(** What the submission loop stores, message by message, from index [i]. *)
Fixpoint entries (i : nat) (ms : list message) (ids : list string)
  : list (string * msg_data) :=
  match ms, ids with
  | m :: ms', id :: ids' =>
      (id, mkData m (submit_agents agents timed_out i m)) :: entries (S i) ms' ids'
  | _, _ => []
  end.

End FanOutVocabulary.

(** ** Sample inputs *)

(** Three stub services with no state of their own. *)
Definition always_valid (σ : unit) (m : message)
  : unit * result (bool * list string) := (σ, Ok (true, [])).

Definition never_valid (σ : unit) (m : message)
  : unit * result (bool * list string) := (σ, Ok (false, ["no currency"])).

Definition service_down (σ : unit) (m : message) (errors : list string)
  : unit * result (option message) := (σ, Raise (OracleError "service unavailable")).

Definition fresh : world := mkWorld () [].

(** A formatter for the floats inside reasons. *)
Definition plain_text (x : float) : string := "<float>".

(** A pool in which every task delivers in time, and the three agents of
    the repository. *)
Definition on_time (i j : nat) : bool := false.

Definition three_agents : list scorer := list_of_agents ascii_text plain_text.

Definition pattern_scorer : scorer :=
  mkScorer "FraudPatternDetectionAgent" (pattern_analyze ascii_text).

Definition bare_amount : message := {[ "amount" := VStr "15000.00" ]}.

Definition wire_15000 : message := {[ "amount" := VStr "15000.00 USD" ]}.

(** An amount that is a list of records. *)
Definition amount_of_records : message :=
  {[ "amount" := VScores [geo_record (of_Z 0) []] ]}.

Definition chase_to_chase : message :=
  {[ "sender_bic" := VStr "CHASUS33XXX"; "receiver_bic" := VStr "CHASUS33XXX" ]}.

Definition tehran_to_london : message :=
  {[ "sender_bic" := VStr "BANKIRXX"; "receiver_bic" := VStr "BARCGB22XXX" ]}.

Definition no_sender : message := {[ "sender_bic" := VNone ]}.


(** Two messages that share one id. *)
Definition first_twin : message :=
  {[ "message_id" := VStr "MSG001"; "amount" := VStr "5000.00 USD" ]}.

Definition second_twin : message :=
  {[ "message_id" := VStr "MSG001"; "amount" := VStr "75000.00 USD" ]}.

(** ** The correction loop, further *)

(** No reply of the correction service carries the key [k]. *)
Definition replies_avoid {Σ} 
  (correction_oracle : Σ → message → list string → Σ * result (option message))
  (k : string) : Prop :=
  ∀ σ m errors σ' d,
    correction_oracle σ m errors = (σ', Ok (Some d)) → d !! k = None.

(** The keys the loop itself writes. *)
Definition loop_keys : list string :=
  ["amount"; "validation_status"; "validation_errors"].

(** A correction service that answers with a new id and nothing else. *)
Definition renames_to (id : string) (σ : unit) (m : message) (errors : list string)
  : unit * result (option message) :=
  (σ, Ok (Some {[ "message_id" := VStr id ]})).

(** The calls of a loop that went through its whole budget. *)
Definition budget_spent : list call :=
  [Evaluation; Correction; Evaluation; Correction; Evaluation].

(** ** Counting characters *)

Fixpoint count_ch (f : ascii → bool) (s : string) : nat :=
  match s with
  | EmptyString => 0
  | String c s' => (if f c then 1 else 0) + count_ch f s'
  end.

Definition is_dot (c : ascii) : bool := Ascii.eqb c ".".
Definition digits_in (s : string) : nat := count_ch ch_isdigit s.
Definition dots_in (s : string) : nat := count_ch is_dot s.

(** The interpreter's text functions are the ASCII ones on ASCII text;
    [float] needs to agree on digits and dots only, which is all the
    embedded [float_of_digits] reads. *)
Definition ascii_exact (rt : text) : Prop :=
  ∀ s, isascii s = true →
    to_upper rt s = upper s
    ∧ to_lower rt s = lower s
    ∧ characters rt s = characters ascii_text s
    ∧ isdigit rt s = str_isdigit s
    ∧ (str_forall (λ c, ch_isdigit c || is_dot c) s = true →
       to_float rt s = to_float ascii_text s).

(** An amount written with dots between the thousands. *)
Definition dotted_million : message := {[ "amount" := VStr "1.000.000 EUR" ]}.

(** ** The fan-out, further *)

(** The keys the fan-out writes. *)
Definition fraud_keys : list string :=
  ["fraud_analysis"; "fraud_status"; "fraud_score"; "fraud_reasons"].

(** The keys the three agents and the wrapper read. *)
Definition input_keys : list string :=
  ["amount"; "sender_bic"; "receiver_bic"; "remittance_info"; "message_id"].

(** The message has a usable id: the key is there and its value hashes. *)
Definition has_key (m : message) : Prop := ∃ k, id_key m = Ok k.

(** What a future delivers, if it does. *)
Definition delivered (f : future) : option AgentScore :=
  match f with
  | Ok r => Some r
  | Raise _ => None
  end.

(** A pool in which no task delivers in time. *)
Definition too_late (i j : nat) : bool := true.

(** A message without an id. *)
Definition anonymous : message := {[ "amount" := VStr "5000.00 USD" ]}.

(** Two messages agree on every key the agents and the wrapper read. *)
Definition same_inputs (m m' : message) : Prop :=
  ∀ k, k ∈ input_keys → m !! k = m' !! k.


(** The marks the two stages leave on a message. *)
Definition validated (m : message) : Prop :=
  m !! "validation_status" = Some (VStr "VALID")
  ∨ m !! "validation_status" = Some (VStr "INVALID").

Definition scored (m : message) : Prop :=
  m !! "fraud_status" = Some (VStr "CLEAN")
  ∨ m !! "fraud_status" = Some (VStr "FRAUDULENT").

(** A message with an id of its own. *)
Definition other_wire : message :=
  {[ "message_id" := VStr "MSG002"; "amount" := VStr "75000.00 USD" ]}.

(** Two messages whose ids are lists, and not the same list. *)
Definition list_id : message := {[ "message_id" := VStrs ["MSG001"] ]}.

Definition other_list_id : message := {[ "message_id" := VStrs ["MSG002"] ]}.

(** The records of those tasks of the [i]-th message that delivered in
    time, in the order of the agents. *)
Definition own_records (agents : list scorer) (timed_out : nat → nat → bool)
  (i : nat) (m : message) : list AgentScore :=
  omap id (imap (λ j a, if timed_out i j then None
                        else Some (_process_message m a)) agents).

(** [m'] is [m] with the verdict on [records] written into it: the
    records themselves, the status, the confidence and the reasons of
    their aggregate under the four fraud keys, and every other key as it
    was. *)
Definition annotated_with (records : list AgentScore) (m m' : message) : Prop :=
  m' !! "fraud_analysis" = Some (VScores records)
  ∧ m' !! "fraud_status"
    = Some (VStr (if is_fraudulent (aggregate_results records)
                  then "FRAUDULENT" else "CLEAN"))
  ∧ m' !! "fraud_score" = Some (VNum (confidence (aggregate_results records)))
  ∧ m' !! "fraud_reasons"
    = Some (VStrs (aggregated_reasons (aggregate_results records)))
  ∧ ∀ k, k ∉ fraud_keys → m' !! k = m !! k.

(* ===================================================================== *)
(** * Properties *)
(* ===================================================================== *)

(** ** Slices *)

Lemma slice_lookup {A} (s : list A) lo hi k :
  slice s lo hi !! k = if decide (k < hi - lo) then s !! (lo + k) else None.
Proof.
  unfold slice. case_decide as Hk.
  - rewrite lookup_take_lt by lia. by rewrite lookup_drop.
  - apply lookup_take_ge. lia.
Qed.

Lemma slice_length {A} (s : list A) lo hi :
  length (slice s lo hi) = (hi - lo) `min` (length s - lo).
Proof. unfold slice. by rewrite length_take, length_drop. Qed.

Lemma slice_nonempty {A} (s : list A) lo hi :
  lo < hi → lo < length s → slice s lo hi ≠ [].
Proof.
  intros ?? Hnil. pose proof (slice_length s lo hi) as Hl.
  rewrite Hnil in Hl. simpl in Hl. lia.
Qed.

(** ** The BIC validator *)

Section BicValidatorFacts.
Context {ch : Type}.
Variable ch_alpha ch_alnum : ch → bool.

Lemma forallb_slice (P : ch → bool) s lo hi :
  hi ≤ length s →
  forallb P (slice s lo hi) = true ↔ chars_are P s lo hi.
Proof.
  intros Hhi. rewrite forallb_forall. unfold chars_are. split.
  - intros H i c Hi Hc. apply H, list_elem_of_In, list_elem_of_lookup.
    exists (i - lo). rewrite slice_lookup.
    case_decide; [|lia]. by replace (lo + (i - lo)) with i by lia.
  - intros H c [k Hk]%list_elem_of_In%list_elem_of_lookup.
    rewrite slice_lookup in Hk. case_decide; [|done].
    apply (H (lo + k)); [lia | done].
Qed.

Lemma isalpha_slice s lo hi :
  lo < hi → hi ≤ length s →
  isalpha ch_alpha (slice s lo hi) = true ↔ chars_are ch_alpha s lo hi.
Proof.
  intros Hlo Hhi. rewrite <- forallb_slice by done. unfold isalpha.
  destruct (slice s lo hi) eqn:E; [|done].
  exfalso. revert E. apply slice_nonempty; lia.
Qed.

Lemma isalnum_slice s lo hi :
  lo < hi → hi ≤ length s →
  isalnum ch_alnum (slice s lo hi) = true ↔ chars_are ch_alnum s lo hi.
Proof.
  intros Hlo Hhi. rewrite <- forallb_slice by done. unfold isalnum.
  destruct (slice s lo hi) eqn:E; [|done].
  exfalso. revert E. apply slice_nonempty; lia.
Qed.

Lemma length_in_8_11 (n : nat) : n ∈ [8; 11] ↔ n = 8 ∨ n = 11.
Proof. rewrite !elem_of_cons, elem_of_nil. tauto. Qed.

Lemma validate_bic_true bic :
  _validate_bic ch_alpha ch_alnum bic = true ↔ bic_shape ch_alpha ch_alnum bic.
Proof.
  unfold _validate_bic, bic_shape.
  destruct bic as [|c0 bic0] eqn:Ebic.
  { simpl. split; [done | intros [[?|?] _]; done]. }
  rewrite <- Ebic. clear Ebic c0 bic0.
  case_bool_decide as Hlen; simpl; rewrite length_in_8_11 in Hlen.
  2:{ split; [done | tauto]. }
  assert (8 ≤ length bic) by lia.
  destruct (isalpha ch_alpha (slice bic 0 4)) eqn:E1; simpl;
    [apply isalpha_slice in E1; [|lia..]
    | split; [done|]; intros (_ & H1 & _);
      apply isalpha_slice in H1; [congruence | lia..] ].
  destruct (isalpha ch_alpha (slice bic 4 6)) eqn:E2; simpl;
    [apply isalpha_slice in E2; [|lia..]
    | split; [done|]; intros (_ & _ & H2 & _);
      apply isalpha_slice in H2; [congruence | lia..] ].
  destruct (isalnum ch_alnum (slice bic 6 8)) eqn:E3; simpl;
    [apply isalnum_slice in E3; [|lia..]
    | split; [done|]; intros (_ & _ & _ & H3 & _);
      apply isalnum_slice in H3; [congruence | lia..] ].
  case_bool_decide as H11; simpl.
  - destruct (isalnum ch_alnum (slice bic 8 11)) eqn:E4; simpl.
    + apply isalnum_slice in E4; [|lia..]. tauto.
    + split; [done|]. intros (_ & _ & _ & _ & H4).
      specialize (H4 H11). apply isalnum_slice in H4; [congruence | lia..].
  - tauto.
Qed.

(** C1.  For every string, [_validate_bic] answers [true] exactly when the
    length is 8 or 11, characters 0-3 and 4-5 are alphabetic, characters
    6-7 are alphanumeric and, at length 11, characters 8-10 are
    alphanumeric; on every other string, the empty one and the short ones
    included, it answers [false].  The embedding is a total function: the
    truth test, [len], the slices and the two classifications never raise
    on a str. *)
Theorem validate_bic_spec (bic : list ch) :
  (_validate_bic ch_alpha ch_alnum bic = true ↔ bic_shape ch_alpha ch_alnum bic)
  ∧ (_validate_bic ch_alpha ch_alnum bic = false ↔ ¬ bic_shape ch_alpha ch_alnum bic).
Proof.
  pose proof (validate_bic_true bic) as H.
  split; [done|].
  destruct (_validate_bic ch_alpha ch_alnum bic); split; intros; try done.
  - exfalso. tauto.
  - intros ?. assert (false = true) by tauto. done.
Qed.

End BicValidatorFacts.

Example validate_bic_chase : validate_bic_ascii "CHASUS33XXX" = true.
Proof. reflexivity. Qed.

Example validate_bic_short : validate_bic_ascii "INVALID" = false.
Proof. reflexivity. Qed.

Example validate_bic_digits_in_country : validate_bic_ascii "TEST1234" = false.
Proof. reflexivity. Qed.

Example validate_bic_empty : validate_bic_ascii "" = false.
Proof. reflexivity. Qed.

(** ** The aggregator *)

Lemma reasons_of_app acc (r : AgentScore) :
  reasons_of acc r
  = acc ++ ((λ reason, "[" +:+ agent r +:+ "] " +:+ reason) <$> fraud_reasons r).
Proof.
  unfold reasons_of. generalize (fraud_reasons r) as l. intros l.
  revert acc. induction l as [|x l IH]; intros acc; simpl.
  - by rewrite app_nil_r.
  - rewrite IH. by rewrite <- app_assoc.
Qed.

Lemma all_reasons_app acc (scores : list AgentScore) :
  foldl reasons_of acc scores = acc ++ tagged_reasons scores.
Proof.
  revert acc. induction scores as [|r scores IH]; intros acc; simpl.
  - by rewrite app_nil_r.
  - rewrite IH, reasons_of_app. unfold tagged_reasons. simpl.
    by rewrite <- app_assoc.
Qed.

(** C3.  On the empty list the aggregator returns the fixed clean verdict;
    on a non-empty list the verdict is fraudulent exactly when the average
    risk (the sum of the risk scores, added left to right, over the length)
    reaches 0.5, the confidence is [round(avg * 100, 2)], the total risk
    score is [round(avg, 3)], and the reasons are the tagged reasons in
    agent-then-reason order. *)
Theorem aggregate_results_spec :
  aggregate_results [] = mkVerdict false (of_Z 0) (of_Z 0) []
  ∧ ∀ (r : AgentScore) (rs : list AgentScore),
      let scores := r :: rs in
      let avg := fdiv (py_sum (risk_score <$> scores))
                      (of_Z (Z.of_nat (length scores))) in
      aggregate_results scores
      = mkVerdict (fle (decimal 5 1) avg)
                  (py_round (fmul avg (of_Z 100)) 2)
                  (py_round avg 3)
                  (tagged_reasons scores).
Proof.
  split; [done|]. intros r rs scores avg.
  unfold aggregate_results. subst scores.
  by rewrite (all_reasons_app [] (r :: rs)).
Qed.

(** The scenario of the specification: 0.3, 0.6 and 0.9 give a confidence
    of 60.0 and a fraudulent verdict. *)
Example aggregate_three_agents :
  let v := aggregate_results
             [ mkScore "a" (decimal 3 1) [] None None;
               mkScore "b" (decimal 6 1) [] None None;
               mkScore "c" (decimal 9 1) [] None None ] in
  confidence v = of_Z 60 ∧ is_fraudulent v = true.
Proof. vm_compute. done. Qed.

(** ** [str.split] *)

Lemma str_app_nil (b : string) : "" +:+ b = b.
Proof. reflexivity. Qed.

Lemma str_app_cons (c : ascii) (a b : string) :
  String c a +:+ b = String c (a +:+ b).
Proof. reflexivity. Qed.

Lemma str_app_assoc (a b c : string) : (a +:+ b) +:+ c = a +:+ (b +:+ c).
Proof.
  induction a as [|x a IH]; [done|].
  by rewrite !str_app_cons, IH.
Qed.

Lemma str_app_empty_r (a : string) : a +:+ "" = a.
Proof.
  induction a as [|x a IH]; [done|].
  by rewrite str_app_cons, IH.
Qed.

Lemma blank_free_app a b : blank_free a → blank_free b → blank_free (a +:+ b).
Proof.
  unfold blank_free. induction a as [|x a IH]; [done|].
  rewrite str_app_cons. simpl.
  rewrite !andb_true_iff. intros [??] ?. auto.
Qed.

Lemma flush_nonempty tok : tok ≠ "" → flush tok = [tok].
Proof. by destruct tok. Qed.

(** Every part that [split] returns is non-empty and blank-free. *)
Lemma split_from_parts tok s :
  blank_free tok →
  Forall (λ part, part ≠ "" ∧ blank_free part) (split_from tok s).
Proof.
  revert tok. induction s as [|c s IH]; intros tok Htok; simpl.
  - destruct tok; simpl; [constructor|]. by repeat constructor.
  - destruct (ch_isspace c) eqn:Ec.
    + apply Forall_app. split; [|by apply IH].
      destruct tok; simpl; [constructor|]. by repeat constructor.
    + apply IH, blank_free_app; [done|].
      unfold blank_free. simpl. by rewrite Ec.
Qed.

(** Reading a blank-free run only extends the current part. *)
Lemma split_from_run tok t s :
  blank_free t → split_from tok (t +:+ s) = split_from (tok +:+ t) s.
Proof.
  revert tok. induction t as [|c t IH]; intros tok Ht.
  - by rewrite str_app_nil, str_app_empty_r.
  - unfold blank_free in Ht. simpl in Ht. apply andb_true_iff in Ht as [Hc Ht].
    apply negb_true_iff in Hc. rewrite str_app_cons. simpl.
    rewrite Hc, IH by done.
    by rewrite str_app_assoc.
Qed.

Lemma split_with_usd part :
  part ≠ "" → blank_free part → split (part +:+ " USD") = [part; "USD"].
Proof.
  intros Hne Hbf. unfold split. rewrite split_from_run by done.
  rewrite str_app_nil. simpl. by rewrite flush_nonempty.
Qed.

(** ** The correction loop *)

Lemma repair_amount_settled (m : message) : amount_settled (repair_amount m).
Proof.
  unfold repair_amount, amount_settled. intros s.
  destruct (m !! "amount") as [v|] eqn:Ea; [|by rewrite Ea].
  destruct v as [| |amount| |]; try (rewrite Ea; intros [=]; fail).
  destruct (split amount) as [|part parts] eqn:Es.
  { rewrite Ea. intros [= <-]. by rewrite Es. }
  destruct parts as [|part' parts].
  - rewrite lookup_insert_eq. intros [= <-].
    pose proof (split_from_parts "" amount eq_refl) as Hparts.
    fold (split amount) in Hparts. rewrite Es in Hparts.
    apply Forall_cons in Hparts as [[Hne Hbf] _].
    by rewrite split_with_usd.
  - rewrite Ea. intros [= <-]. by rewrite Es.
Qed.

Lemma mark_amount status errors (m : message) :
  mark status errors m !! "amount" = m !! "amount".
Proof. unfold mark. by rewrite !lookup_insert_ne. Qed.

Lemma mark_settled status errors m :
  amount_settled m → amount_settled (mark status errors m).
Proof. unfold amount_settled. intros H s. rewrite mark_amount. apply H. Qed.

Section LoopFacts.
Context {Σ : Type}.
Variable evaluation_oracle : Σ → message → Σ * result (bool * list string).
Variable correction_oracle :
  Σ → message → list string → Σ * result (option message).

Local Abbreviation evaluate_message := (evaluate_message evaluation_oracle).
Local Abbreviation optimize_message := (optimize_message correction_oracle).
Local Abbreviation iterate := (iterate evaluation_oracle correction_oracle).
Local Abbreviation correct_message := (correct_message evaluation_oracle correction_oracle).
Local Abbreviation process_with_evaluator_optimizer :=
  (process_with_evaluator_optimizer evaluation_oracle correction_oracle).

Lemma evaluate_message_calls (w : world) m :
  calls (evaluate_message w m).1 = calls w ++ [Evaluation].
Proof. unfold CorrectionLoop.evaluate_message. by destruct (evaluation_oracle _ _). Qed.

Lemma optimize_message_calls (w : world) m errors :
  calls (optimize_message w m errors).1 = calls w ++ [Correction].
Proof.
  unfold CorrectionLoop.optimize_message, respond.
  by destruct (correction_oracle _ _ _).
Qed.

Lemma optimize_message_settled (w : world) m errors :
  amount_settled (optimize_message w m errors).2.
Proof.
  unfold CorrectionLoop.optimize_message. destruct (respond _ _ _ _).
  apply repair_amount_settled.
Qed.

Lemma evaluations_app l1 l2 : evaluations (l1 ++ l2) = evaluations l1 + evaluations l2.
Proof. apply count_occ_app. Qed.

Lemma corrections_app l1 l2 : corrections (l1 ++ l2) = corrections l1 + corrections l2.
Proof. apply count_occ_app. Qed.

(** Each iteration evaluates at most once, and corrects at most once and
    only before the last iteration. *)
Lemma iterate_calls iterations (w : world) m :
  ∃ log, calls (iterate iterations w m).1 = calls w ++ log
         ∧ evaluations log ≤ length iterations
         ∧ corrections log ≤ length (may_correct iterations).
Proof.
  revert w m. induction iterations as [|iteration rest IH]; intros w m; simpl.
  { exists []. rewrite app_nil_r. split_and!; [done|cbn; lia..]. }
  pose proof (evaluate_message_calls w m) as Hev.
  destruct (evaluate_message w m) as [w1 [[is_valid errors]|e]]; simpl in Hev.
  2:{ exists [Evaluation]. split_and!; [done|cbn; lia..]. }
  destruct is_valid.
  { exists [Evaluation]. split_and!; [done|cbn; lia..]. }
  unfold may_correct. rewrite filter_cons. fold (may_correct rest).
  case_bool_decide as Hit.
  - pose proof (optimize_message_calls w1 m errors) as Hop.
    destruct (optimize_message w1 m errors) as [w2 m2]; simpl in Hop.
    destruct (IH w2 m2) as (log & Hlog & He & Hc).
    exists ([Evaluation; Correction] ++ log).
    rewrite decide_True by done.
    rewrite Hlog, Hop, Hev, evaluations_app, corrections_app, <- !app_assoc.
    split_and!; [done|cbn in *; lia..].
  - destruct (IH w1 (mark "INVALID" errors m)) as (log & Hlog & He & Hc).
    exists ([Evaluation] ++ log).
    rewrite decide_False by done.
    rewrite Hlog, Hev, evaluations_app, corrections_app, <- !app_assoc.
    split_and!; [done|cbn in *; lia..].
Qed.

Lemma first_verdict_valid (w : world) m σ errors :
  evaluation_oracle (oracle_state w) m = (σ, Ok (true, errors)) →
  correct_message w m
  = (mkWorld σ (calls w ++ [Evaluation]), Ok (mark "VALID" [] m)).
Proof.
  intros H. unfold CorrectionLoop.correct_message. simpl.
  unfold CorrectionLoop.evaluate_message. by rewrite H.
Qed.

(** C2.  Whatever the two oracles do, the loop over one message returns
    after at most 3 evaluation calls and at most 2 correction calls; when
    the first evaluation says valid it made exactly 1 evaluation call and
    no correction call.  ([correct_message] is a total function: it
    recurses on the three values of [range(MAX_ITERATIONS)].) *)
Theorem correction_loop_call_bounds (w : world) (m : message) :
  ∃ log, calls (correct_message w m).1 = calls w ++ log
         ∧ evaluations log ≤ 3
         ∧ corrections log ≤ 2
         ∧ (∀ σ errors,
              evaluation_oracle (oracle_state w) m = (σ, Ok (true, errors)) →
              evaluations log = 1 ∧ corrections log = 0).
Proof.
  destruct (iterate_calls (seq 0 MAX_ITERATIONS) w m) as (log & Hlog & He & Hc).
  exists log. split_and!; [done | exact He | exact Hc |].
  intros σ errors Hvalid.
  unfold CorrectionLoop.correct_message in Hlog |- *.
  fold (correct_message w m) in Hlog.
  rewrite (first_verdict_valid w m σ errors Hvalid) in Hlog. simpl in Hlog.
  apply app_inv_head in Hlog. by subst log.
Qed.

(** Iterating keeps a settled amount settled. *)
Lemma iterate_settled iterations (w : world) m m' :
  amount_settled m →
  (iterate iterations w m).2 = Ok m' →
  amount_settled m'.
Proof.
  revert w m. induction iterations as [|iteration rest IH]; intros w m Hm; simpl.
  { by intros [= <-]. }
  destruct (evaluate_message w m) as [w1 [[is_valid errors]|e]]; simpl; [|done].
  destruct is_valid; simpl.
  { intros [= <-]. by apply mark_settled. }
  case_bool_decide.
  - pose proof (optimize_message_settled w1 m errors) as Hs.
    destruct (optimize_message w1 m errors) as [w2 m2]. by apply IH.
  - by apply IH, mark_settled.
Qed.

(** C4, as the code has it.  When the first evaluation of a message says
    invalid, so that at least one correction pass runs, and the loop
    returns, the amount of the message, if it is a str, is not a single
    bare part: either it has no part at all or it has at least two
    blank-separated parts. *)
Theorem amount_after_correction (w : world) (m m' : message) σ errors :
  evaluation_oracle (oracle_state w) m = (σ, Ok (false, errors)) →
  (correct_message w m).2 = Ok m' →
  ∀ s, m' !! "amount" = Some (VStr s) →
       split s ≠ [] → carries_currency (VStr s) = true.
Proof.
  intros Hev Hrun s Hs Hparts.
  assert (amount_settled m') as Hsettled.
  { revert Hrun. unfold CorrectionLoop.correct_message. simpl.
    unfold CorrectionLoop.evaluate_message at 1. rewrite Hev. simpl.
    pose proof (optimize_message_settled (mkWorld σ (calls w ++ [Evaluation])) m errors) as H1.
    destruct (optimize_message _ m errors) as [w2 m2].
    apply (iterate_settled [1; 2]), H1. }
  specialize (Hsettled s Hs). unfold carries_currency.
  apply bool_decide_eq_true. destruct (split s) as [|? [|? ?]]; simpl in *; [done|done|lia].
Qed.


(** When no evaluation raises, nothing stops the batch: it returns one
    message per input, whatever the correction calls do. *)
Lemma iterate_returns iterations (w : world) m :
  (∀ σ m, ∃ σ' verdict, evaluation_oracle σ m = (σ', Ok verdict)) →
  ∃ m', (iterate iterations w m).2 = Ok m'.
Proof.
  intros Hev. revert w m.
  induction iterations as [|iteration rest IH]; intros w m; simpl; [by eexists|].
  unfold CorrectionLoop.evaluate_message.
  destruct (Hev (oracle_state w) m) as (σ' & [is_valid errors] & ->).
  destruct is_valid; simpl; [by eexists|].
  case_bool_decide; [|apply IH].
  destruct (optimize_message _ m errors). apply IH.
Qed.

Lemma batch_returns (w : world) (messages : list message) :
  (∀ σ m, ∃ σ' verdict, evaluation_oracle σ m = (σ', Ok verdict)) →
  ∃ optimized, (process_with_evaluator_optimizer w messages).2 = Ok optimized
               ∧ length optimized = length messages.
Proof.
  intros Hev. revert w.
  induction messages as [|m rest IH]; intros w; simpl; [by eexists|].
  destruct (iterate_returns (seq 0 MAX_ITERATIONS) w m Hev) as [m' Hm'].
  unfold CorrectionLoop.correct_message.
  destruct (iterate _ w m) as [w1 r]. simpl in Hm'. subst r.
  destruct (IH w1) as (optimized & Hrest & Hlen).
  destruct (process_with_evaluator_optimizer w1 rest) as [w2 rs].
  simpl in Hrest. subst rs. simpl. eexists. split; [done|]. simpl. lia.
Qed.


End LoopFacts.

Lemma correction_loop_call_bounds_witness :
  ∃ log, calls (correct_message always_valid service_down fresh bare_amount).1
         = calls fresh ++ log
         ∧ evaluations log = 1 ∧ corrections log = 0.
Proof.
  destruct (correction_loop_call_bounds always_valid service_down fresh bare_amount)
    as (log & Hlog & _ & _ & Hfirst).
  exists log. split; [exact Hlog|].
  exact (Hfirst () [] eq_refl).
Defined.

(** C4 as stated fails: a message that the first evaluation accepts never
    reaches the repair, and its bare amount stays bare. *)
Lemma bare_amount_survives_valid_verdict :
  (correct_message always_valid service_down fresh bare_amount).2
  = Ok (mark "VALID" [] bare_amount)
  ∧ mark "VALID" [] bare_amount !! "amount" = Some (VStr "15000.00")
  ∧ carries_currency (VStr "15000.00") = false.
Proof. split_and!; reflexivity. Qed.

Lemma amount_after_correction_witness :
  never_valid (oracle_state fresh) bare_amount = ((), Ok (false, ["no currency"]))
  ∧ (correct_message never_valid service_down fresh bare_amount).2
    = Ok (mark "INVALID" ["no currency"]
            (<["amount" := VStr "15000.00 USD"]> bare_amount))
  ∧ carries_currency (VStr "15000.00 USD") = true.
Proof.
  assert ((correct_message never_valid service_down fresh bare_amount).2
          = Ok (mark "INVALID" ["no currency"]
                  (<["amount" := VStr "15000.00 USD"]> bare_amount))) as Hrun
    by (vm_compute; reflexivity).
  split_and!; [reflexivity | exact Hrun |].
  apply (amount_after_correction never_valid service_down fresh bare_amount _
           () ["no currency"] eq_refl Hrun "15000.00 USD").
  - vm_compute; reflexivity.
  - vm_compute; discriminate.
Defined.


(** ** The amount agent *)

Lemma float_of_digits_raises s e : float_of_digits s = Raise e → e = ValueError.
Proof.
  unfold float_of_digits. destruct (cut_at_dot s) as [int_part rest].
  destruct (negb _); [by intros [= <-]|].
  destruct (negb _); [by intros [= <-]|].
  destruct (String.eqb _ _); [by intros [= <-] | done].
Qed.

Section AmountFacts.
Variable rt : text.
Variable float_text : float → string.

Lemma amount_rules_score amount :
  (amount_rules float_text amount).1 = amount_score amount.
Proof.
  unfold amount_rules, amount_score, exceeds, positive_multiple_of_1000,
    non_integral_remainder, adds, bump.
  destruct (flt (of_Z 10000) amount),
           (feq (py_mod amount 1000) (of_Z 0) && flt (of_Z 0) amount),
           (flt (of_Z 100000) amount && negb (feq (py_mod amount 1) (of_Z 0)));
    reflexivity.
Qed.

Lemma amount_analyze_text (m : message) s :
  amount_text m = Some s →
  amount_try rt float_text m
  = (amount ← py_float rt (strip_amount rt s); Ok (amount_rules float_text amount)).
Proof.
  unfold amount_text, amount_try, get. intros H.
  destruct (m !! "amount") as [[| |s'| |]|]; simplify_eq/=; done.
Qed.

(** C7.  For a message whose amount is a str (["0"] when the key is
    missing) the agent strips everything but digits and dots and parses
    the rest.  When that parses, the risk is [min(s, 1.0)] where [s] adds
    0.3 if the amount exceeds 10000, 0.2 if it is a positive multiple of
    1000 and 0.1 if it exceeds 100000 with a non-zero remainder modulo 1.
    When it does not parse, and likewise when the amount is [None] or a
    number, the agent returns risk 0 and no reasons; no exception leaves
    the agent in any of these cases.  This holds whatever the interpreter
    takes for a digit and whatever [float] accepts. *)
Theorem amount_agent_spec (m : message) :
  (∀ s, amount_text m = Some s →
     match to_float rt (strip_amount rt s) with
     | Some amount =>
         ∃ reasons,
           amount_analyze rt float_text m
           = Ok (amount_record (py_min (amount_score amount) (decimal 10 1)) reasons)
     | None => amount_analyze rt float_text m = Ok (amount_record (of_Z 0) [])
     end)
  ∧ (m !! "amount" = Some VNone ∨ (∃ x, m !! "amount" = Some (VNum x)) →
     amount_analyze rt float_text m = Ok (amount_record (of_Z 0) [])).
Proof.
  split.
  - intros s Hs. unfold amount_analyze.
    rewrite (amount_analyze_text m s Hs). unfold py_float.
    destruct (to_float rt (strip_amount rt s)) as [amount|]; simpl; [|done].
    eexists. by rewrite amount_rules_score.
  - intros [H|[x H]]; unfold amount_analyze, amount_try, get; by rewrite H.
Qed.

End AmountFacts.

Lemma amount_agent_spec_witness :
  amount_text wire_15000 = Some "15000.00 USD"
  ∧ to_float ascii_text (strip_amount ascii_text "15000.00 USD") = Some (of_Z 15000)
  ∧ ∃ reasons,
      amount_analyze ascii_text plain_text wire_15000
      = Ok (amount_record (py_min (amount_score (of_Z 15000)) (decimal 10 1)) reasons).
Proof.
  split_and!; [reflexivity | reflexivity |].
  exact (proj1 (amount_agent_spec ascii_text plain_text wire_15000)
           "15000.00 USD" eq_refl).
Defined.

(** An amount that is a list holding a record: the record has no
    [isdigit], the AttributeError is not among the exceptions the agent
    catches, and it leaves [analyze]. *)
Lemma list_amount_escapes_amount_agent :
  amount_of_records !! "amount" = Some (VScores [geo_record (of_Z 0) []])
  ∧ amount_analyze ascii_text plain_text amount_of_records = Raise AttributeError.
Proof. split; reflexivity. Qed.

Example amount_15000_scores_half :
  risk_score <$> amount_analyze ascii_text plain_text wire_15000 = Ok (decimal 5 1).
Proof. reflexivity. Qed.

(** ** The pattern agent *)

Lemma add_per_nil {A} weight s : add_per (@nil A) weight s = s.
Proof. reflexivity. Qed.

Lemma add_per_cons {A} (x : A) items weight s :
  add_per (x :: items) weight s = add_per items weight (fadd s weight).
Proof. unfold add_per. simpl. by rewrite foldr_app. Qed.

Section PatternFacts.
Variable rt : text.

Lemma bic_hit_text pattern sender receiver :
  bic_hit rt pattern (VStr sender) (VStr receiver)
  = Ok (pattern_found rt sender receiver pattern).
Proof.
  unfold bic_hit, pattern_found. cbn [py_upper mbind result_bind].
  by destruct (contains pattern (to_upper rt sender)).
Qed.

Lemma pattern_loop_text patterns sender receiver (st : tally) :
  pattern_loop rt patterns (VStr sender) (VStr receiver) st
  = Ok (add_per (List.filter (pattern_found rt sender receiver) patterns)
                (decimal 4 1) st.1,
        st.2 ++ ((λ p, "Test/fake pattern detected in BIC: " +:+ p)
                   <$> List.filter (pattern_found rt sender receiver) patterns)).
Proof.
  revert st. induction patterns as [|p patterns IH]; intros [risk reasons].
  { cbn [pattern_loop List.filter fmap list_fmap fst snd].
    by rewrite add_per_nil, app_nil_r. }
  cbn [pattern_loop List.filter]. rewrite bic_hit_text.
  cbn [mbind result_bind]. rewrite IH.
  destruct (pattern_found rt sender receiver p); [|done].
  unfold bump. cbn [fst snd]. rewrite add_per_cons.
  cbn [fmap list_fmap]. by rewrite <- app_assoc.
Qed.

Lemma keyword_loop_text keywords text (st : tally) :
  keyword_loop keywords (to_lower rt text) st
  = (add_per (List.filter (keyword_found rt text) keywords) (decimal 2 1) st.1,
     st.2 ++ ((λ k, "Suspicious keyword in remittance: " +:+ k)
                <$> List.filter (keyword_found rt text) keywords)).
Proof.
  revert st. induction keywords as [|k keywords IH]; intros [risk reasons].
  { cbn [keyword_loop List.filter fmap list_fmap fst snd].
    by rewrite add_per_nil, app_nil_r. }
  cbn [keyword_loop List.filter]. rewrite IH.
  change (contains k (to_lower rt text)) with (keyword_found rt text k).
  destruct (keyword_found rt text k); [|done].
  unfold bump. cbn [fst snd]. rewrite add_per_cons.
  cbn [fmap list_fmap]. by rewrite <- app_assoc.
Qed.

Lemma get_bic_text (m : message) key s :
  bic_text m key = Some s → get m key (VStr "") = VStr s.
Proof.
  unfold bic_text, get.
  destruct (m !! key) as [[| |s'| |]|]; intros ?; simplify_eq/=; done.
Qed.

Lemma lowered_remittance (m : message) text :
  remittance_text m = Some text →
  py_lower rt (if truthy (get m "remittance_info" VNone)
            then get m "remittance_info" VNone else VStr "") = Ok (to_lower rt text).
Proof.
  unfold remittance_text, get.
  destruct (m !! "remittance_info") as [[| |s'| |]|]; intros ?;
    simplify_eq/=; try done.
  by destruct text.
Qed.

Lemma pattern_analyze_text (m : message) sender receiver text :
  bic_text m "sender_bic" = Some sender →
  bic_text m "receiver_bic" = Some receiver →
  remittance_text m = Some text →
  pattern_analyze rt m
  = Ok (pattern_record (py_min (pattern_score rt sender receiver text) (decimal 10 1))
                       (pattern_reasons rt sender receiver text)).
Proof.
  intros Hs Hr Ht. unfold pattern_analyze. cbv zeta.
  rewrite (get_bic_text m _ _ Hs), (get_bic_text m _ _ Hr).
  rewrite pattern_loop_text. cbn [mbind result_bind fst snd app].
  rewrite (lowered_remittance m text Ht). cbn [mbind result_bind].
  rewrite keyword_loop_text.
  unfold pattern_record, pattern_score, pattern_reasons, same_bic, same_nonempty.
  destruct (negb (String.eqb sender "") && String.eqb sender receiver);
    cbn [bump fst snd]; [|done].
  by rewrite <- app_assoc.
Qed.


End PatternFacts.



(** The self-test message of parallelization.py: two patterns and two
    keywords add up to 1.2000000000000002, clamped to 1.0. *)
Example pattern_test_message :
  risk_score <$> pattern_analyze ascii_text
    {[ "sender_bic" := VStr "TESTUS33XXX"; "receiver_bic" := VStr "FAKEGB22XXX";
       "remittance_info" := VStr "Urgent payment needed immediately" ]}
  = Ok (decimal 10 1).
Proof. reflexivity. Qed.

(** ** The geographic agent *)

Lemma geo_try_text sender receiver :
  geo_try (VStr sender) (VStr receiver)
  = (geo_score sender receiver, geo_reasons sender receiver).
Proof.
  unfold geo_try, geo_score, geo_reasons, adds, bump.
  cbn [py_slice high_risk fst snd].
  fold (country_of sender). fold (country_of receiver).
  fold (is_high_risk (country_of sender)).
  fold (is_high_risk (country_of receiver)).
  destruct (is_high_risk (country_of sender)),
           (is_high_risk (country_of receiver)); reflexivity.
Qed.

Lemma geo_analyze_text (m : message) sender receiver :
  bic_text m "sender_bic" = Some sender →
  bic_text m "receiver_bic" = Some receiver →
  geo_analyze m
  = geo_record (py_min (geo_score sender receiver) (decimal 10 1))
               (geo_reasons sender receiver).
Proof.
  intros Hs Hr. unfold geo_analyze. cbv zeta.
  rewrite (get_bic_text m _ _ Hs), (get_bic_text m _ _ Hr).
  by rewrite geo_try_text.
Qed.

(** A value that cannot be sliced, on either side, leaves the whole block
    before anything was scored. *)
Lemma geo_try_unsliceable sender_bic receiver_bic :
  (∃ e, py_slice sender_bic 4 6 = Raise e)
  ∨ (∃ e, py_slice receiver_bic 4 6 = Raise e) →
  geo_try sender_bic receiver_bic = (S754_zero false, []).
Proof.
  unfold geo_try. intros [[e ->]|[e ->]]; [done|].
  by destruct (py_slice sender_bic 4 6).
Qed.

(** C8 as stated fails: the sender's country code is IR, yet the agent
    scores nothing, because the receiver BIC is [None] and slicing it
    leaves the block before the sender was scored. *)
Lemma geo_ir_sender_unscored :
  let m : message :=
    {[ "sender_bic" := VStr "BANKIRXX"; "receiver_bic" := VNone ]} in
  country_of "BANKIRXX" = "IR"
  ∧ geo_analyze m = geo_record (S754_zero false) []
  ∧ fle (decimal 4 1) (risk_score (geo_analyze m)) = false.
Proof. split_and!; reflexivity. Qed.

(** C8, as the code has it.  On a message whose two BICs are strs (or
    missing) the agent takes characters 4-5 of each and returns
    [min(s, 1.0)] where [s] adds 0.4 per side whose code is one of IR, KP,
    SY, AF; a sender code IR then gives a risk of at least 0.4 and a
    reason that names IR.  On every message the agent returns a record;
    when either BIC value cannot be sliced, that record has risk 0.0 and
    no reasons. *)
Theorem geo_agent_spec (m : message) :
  (∀ sender receiver,
     bic_text m "sender_bic" = Some sender →
     bic_text m "receiver_bic" = Some receiver →
     geo_analyze m
     = geo_record (py_min (geo_score sender receiver) (decimal 10 1))
                  (geo_reasons sender receiver)
     ∧ (country_of sender = "IR" →
        fle (decimal 4 1) (risk_score (geo_analyze m)) = true
        ∧ "High-risk sender country: IR" ∈ fraud_reasons (geo_analyze m)))
  ∧ ((∃ e, py_slice (get m "sender_bic" (VStr "")) 4 6 = Raise e)
     ∨ (∃ e, py_slice (get m "receiver_bic" (VStr "")) 4 6 = Raise e) →
     geo_analyze m = geo_record (S754_zero false) []).
Proof.
  split.
  - intros sender receiver Hs Hr.
    rewrite (geo_analyze_text m sender receiver Hs Hr).
    split; [done|]. intros Hir.
    cbn [risk_score fraud_reasons geo_record].
    unfold geo_score, geo_reasons. rewrite Hir.
    assert (is_high_risk "IR" = true) as -> by reflexivity.
    split.
    + destruct (is_high_risk (country_of receiver)); reflexivity.
    + apply elem_of_app. left. apply list_elem_of_here.
  - intros H. unfold geo_analyze. cbv zeta.
    by rewrite (geo_try_unsliceable _ _ H).
Qed.

Lemma geo_agent_spec_witness :
  bic_text tehran_to_london "sender_bic" = Some "BANKIRXX"
  ∧ bic_text tehran_to_london "receiver_bic" = Some "BARCGB22XXX"
  ∧ country_of "BANKIRXX" = "IR"
  ∧ fle (decimal 4 1) (risk_score (geo_analyze tehran_to_london)) = true
  ∧ "High-risk sender country: IR" ∈ fraud_reasons (geo_analyze tehran_to_london).
Proof.
  split_and!; [reflexivity..| |];
    apply (proj1 (geo_agent_spec tehran_to_london) "BANKIRXX" "BARCGB22XXX"
             eq_refl eq_refl); reflexivity.
Defined.

(** ** The per-task wrapper *)

(** C9 as stated fails: the pattern agent raises on a message whose sender
    BIC is [None]; the record made of that failure has risk 0 and an
    ['error'] field, but its list of reasons is empty. *)
Lemma failed_agent_gives_no_reason :
  analyze pattern_scorer no_sender = Raise AttributeError
  ∧ risk_score (_process_message no_sender pattern_scorer) = of_Z 0
  ∧ fraud_reasons (_process_message no_sender pattern_scorer) = []
  ∧ error (_process_message no_sender pattern_scorer) = Some "AttributeError".
Proof. split_and!; reflexivity. Qed.

(** C9, as the code has it.  [_process_message] is a total function of the
    message and the agent: it returns a record and never raises.  When
    [analyze] raises, the record carries the agent's class name, risk 0,
    no reasons, no message id, and the text of the exception under
    ['error']; when [analyze] returns, the record is its result with the
    message id (or ['unknown']) added. *)
Theorem process_message_spec (m : message) (a : scorer) :
  (∀ e, analyze a m = Raise e →
        _process_message m a
        = mkScore (class_name a) (of_Z 0) [] None (Some (str_of_exn e)))
  ∧ (∀ r, analyze a m = Ok r →
          agent (_process_message m a) = agent r
          ∧ risk_score (_process_message m a) = risk_score r
          ∧ fraud_reasons (_process_message m a) = fraud_reasons r
          ∧ message_id (_process_message m a)
            = Some (default (VStr "unknown") (m !! "message_id"))).
Proof.
  unfold _process_message. split.
  - by intros e ->.
  - by intros r ->.
Qed.

Lemma process_message_spec_witness :
  analyze pattern_scorer no_sender = Raise AttributeError
  ∧ _process_message no_sender pattern_scorer
    = mkScore "FraudPatternDetectionAgent" (of_Z 0) [] None (Some "AttributeError").
Proof.
  split; [reflexivity|].
  exact (proj1 (process_message_spec no_sender pattern_scorer) AttributeError eq_refl).
Defined.

(** ** Insertion-ordered dicts with str keys *)

Lemma key_eqb_str k id : key_eqb k (KStr id) = true ↔ k = KStr id.
Proof.
  destruct k as [| |s]; simpl; try (split; [done | intros [=]]).
  rewrite String.eqb_eq. split; [by intros -> | by intros [= ->]].
Qed.

Lemma key_eqb_str_false k id : key_eqb k (KStr id) = false ↔ k ≠ KStr id.
Proof. rewrite <- key_eqb_str. by destruct (key_eqb k (KStr id)). Qed.

Section DictFacts.
Context {V : Type}.
Implicit Types (d : list (key * V)) (es : list (string * V)).

Lemma dict_set_fresh k v d :
  dict_get k d = None → dict_set k v d = d ++ [(k, v)].
Proof.
  induction d as [|[k' v'] d IH]; simpl; [done|].
  destruct (key_eqb k' k); [done|]. intros H. by rewrite IH.
Qed.

Lemma dict_set_present k v d :
  is_Some (dict_get k d) → length (dict_set k v d) = length d.
Proof.
  induction d as [|[k' v'] d IH]; simpl; [by intros [? [=]]|].
  destruct (key_eqb k' k); [done|]. intros H. simpl. by rewrite IH.
Qed.

Lemma dict_set_length k v d : length (dict_set k v d) ≤ S (length d).
Proof.
  induction d as [|[k' v'] d IH]; simpl; [done|].
  destruct (key_eqb k' k); simpl; lia.
Qed.

Lemma dict_get_set id id' v d :
  dict_get (KStr id) (dict_set (KStr id') v d)
  = if decide (id' = id) then Some v else dict_get (KStr id) d.
Proof.
  induction d as [|[k' v'] d IH]; simpl.
  - case_decide as Hid.
    + subst. by rewrite String.eqb_refl.
    + apply String.eqb_neq in Hid. by rewrite Hid.
  - destruct (key_eqb k' (KStr id')) eqn:E'.
    + apply key_eqb_str in E' as ->. simpl.
      case_decide as Hid.
      * subst. by rewrite String.eqb_refl.
      * apply String.eqb_neq in Hid. by rewrite Hid.
    + simpl. destruct (key_eqb k' (KStr id)) eqn:E.
      * apply key_eqb_str in E as ->. apply key_eqb_str_false in E'.
        case_decide; [|done]. subst. done.
      * apply IH.
Qed.

Lemma dict_get_snoc_fresh id id' v d :
  dict_get (KStr id) d = None → id ≠ id' →
  dict_get (KStr id) (d ++ [(KStr id', v)]) = None.
Proof.
  intros Hd Hne. induction d as [|[k' v'] d IH]; simpl in *.
  - apply String.eqb_neq in Hne. by rewrite String.eqb_sym, Hne.
  - destruct (key_eqb k' (KStr id)); [done|]. by apply IH.
Qed.

Lemma build_length d es : length (build d es) ≤ length d + length es.
Proof.
  revert d. induction es as [|[id v] es IH]; intros d; simpl; [lia|].
  specialize (IH (dict_set (KStr id) v d)).
  pose proof (dict_set_length (KStr id) v d). lia.
Qed.

Lemma build_get_other d es id :
  id ∉ es.*1 → dict_get (KStr id) (build d es) = dict_get (KStr id) d.
Proof.
  revert d. induction es as [|[id' v] es IH]; intros d Hid; simpl; [done|].
  rewrite fmap_cons, not_elem_of_cons in Hid. destruct Hid as [Hne Hid].
  rewrite IH, dict_get_set by done. simpl in Hne. by rewrite decide_False.
Qed.

(** The value under a key is the one submitted last for it. *)
Lemma build_get_last d es id :
  id ∈ es.*1 →
  ∃ l v, es !! l = Some (id, v)
         ∧ (id ∉ (drop (S l) es).*1)
         ∧ dict_get (KStr id) (build d es) = Some v.
Proof.
  revert d. induction es as [|[id' v] es IH]; intros d Hid; simpl.
  { by apply elem_of_nil in Hid. }
  destruct (decide (id ∈ es.*1)) as [Hin|Hout].
  - destruct (IH (dict_set (KStr id') v d) Hin) as (l & v' & Hl & Hlast & Hget).
    by exists (S l), v'.
  - rewrite fmap_cons, elem_of_cons in Hid. destruct Hid as [->|?]; [|done].
    exists 0, v. simpl. split_and!; [done|done|].
    rewrite build_get_other, dict_get_set by done. by rewrite decide_True.
Qed.

(** A key that is already present makes the dict fall short. *)
Lemma build_short d es id :
  is_Some (dict_get (KStr id) d) → id ∈ es.*1 →
  length (build d es) < length d + length es.
Proof.
  revert d. induction es as [|[id' v] es IH]; intros d Hd Hid; simpl.
  { by apply elem_of_nil in Hid. }
  destruct (decide (id' = id)) as [->|Hne].
  - pose proof (build_length (dict_set (KStr id) v d) es).
    rewrite dict_set_present in H by done. lia.
  - rewrite fmap_cons, elem_of_cons in Hid.
    destruct Hid as [?|Hid]; [by subst|].
    assert (is_Some (dict_get (KStr id) (dict_set (KStr id') v d))) as Hd'.
    { rewrite dict_get_set. by rewrite decide_False. }
    specialize (IH _ Hd' Hid).
    pose proof (dict_set_length (KStr id') v d). lia.
Qed.

Lemma build_duplicate es i j id :
  i < j → es.*1 !! i = Some id → es.*1 !! j = Some id →
  length (build [] es) < length es.
Proof.
  intros Hij Hi Hj.
  assert (∃ v, es !! i = Some (id, v)) as [v Hv].
  { rewrite list_lookup_fmap in Hi.
    destruct (es !! i) as [[id' v]|]; simplify_eq/=. by exists v. }
  rewrite <- (take_drop_middle es i (id, v) Hv) at 1.
  unfold build. rewrite foldl_app. simpl.
  fold (build [] (take i es)).
  set (d := dict_set (KStr id) v (build [] (take i es))).
  fold (build d (drop (S i) es)).
  pose proof (build_length [] (take i es)) as Hpre.
  pose proof (dict_set_length (KStr id) v (build [] (take i es))) as Hmid.
  fold d in Hmid.
  assert (length (build d (drop (S i) es)) < length d + length (drop (S i) es))
    as Hpost.
  { apply (build_short _ _ id).
    - unfold d. rewrite dict_get_set, decide_True by done. by eexists.
    - apply list_elem_of_lookup. exists (j - S i).
      rewrite fmap_drop, lookup_drop.
      by replace (S i + (j - S i)) with j by lia. }
  assert (i < length es) as Hlen by (by apply lookup_lt_Some in Hv).
  rewrite length_take in Hpre. rewrite length_drop in Hpost.
  simpl in Hpre. lia.
Qed.

Lemma build_distinct d es :
  NoDup es.*1 →
  (∀ id, id ∈ es.*1 → dict_get (KStr id) d = None) →
  build d es = d ++ ((λ e, (KStr e.1, e.2)) <$> es).
Proof.
  revert d. induction es as [|[id v] es IH]; intros d Hnd Hfresh; simpl.
  { by rewrite app_nil_r. }
  rewrite fmap_cons, NoDup_cons in Hnd. destruct Hnd as [Hid Hnd].
  rewrite dict_set_fresh by (apply Hfresh; rewrite fmap_cons; left).
  rewrite IH; [by rewrite <- app_assoc | done |].
  intros id' Hid'. apply dict_get_snoc_fresh.
  - apply Hfresh. rewrite fmap_cons. by right.
  - intros ->. done.
Qed.

End DictFacts.

(** ** The fan-out *)

Section SchedulerFacts.
Variable agents : list scorer.
Variable timed_out : nat → nat → bool.

Local Abbreviation submit_agents := (submit_agents agents timed_out).
Local Abbreviation submit_all := (submit_all agents timed_out).
Local Abbreviation process_batch_parallel := (process_batch_parallel agents timed_out).
Local Abbreviation verdict := (verdict agents timed_out).
Local Abbreviation entries := (entries agents timed_out).

Lemma entries_ids i ms ids : Forall2 has_id ms ids → (entries i ms ids).*1 = ids.
Proof.
  intros H. revert i. induction H as [|m id ms ids _ _ IH]; intros i; simpl; [done|].
  by rewrite IH.
Qed.

Lemma entries_length i ms ids :
  Forall2 has_id ms ids → length (entries i ms ids) = length ms.
Proof.
  intros H. revert i. induction H as [|m id ms ids _ _ IH]; intros i; simpl; [done|].
  by rewrite IH.
Qed.

Lemma entries_lookup i ms ids l id dat :
  entries i ms ids !! l = Some (id, dat) →
  ∃ m, ms !! l = Some m ∧ ids !! l = Some id
       ∧ dat = mkData m (submit_agents (i + l) m).
Proof.
  revert i ids l. induction ms as [|m ms IH]; intros i [|id' ids] l; simpl; try done.
  destruct l as [|l]; simpl.
  - intros [= <- <-]. exists m. by rewrite Nat.add_0_r.
  - intros H. destruct (IH _ _ _ H) as (m' & ? & ? & ->).
    exists m'. by replace (i + S l) with (S i + l) by lia.
Qed.

Lemma entries_verdicts i ms ids :
  Forall2 has_id ms ids →
  (λ e, join_entry e.2) <$> entries i ms ids = imap (λ j, verdict (i + j)) ms.
Proof.
  intros H. revert i. induction H as [|m id ms ids _ _ IH]; intros i; simpl; [done|].
  rewrite IH. unfold join_entry, verdict. simpl. rewrite Nat.add_0_r. f_equal.
  apply imap_ext. intros j m' _. simpl. by replace (i + S j) with (S i + j) by lia.
Qed.

Lemma submit_all_build i ms ids d :
  Forall2 has_id ms ids →
  submit_all i ms d = Ok (build d (entries i ms ids)).
Proof.
  intros H. revert i d. induction H as [|m id ms ids Hid _ IH]; intros i d; simpl.
  { done. }
  unfold id_key. rewrite Hid. simpl. by rewrite IH.
Qed.

Lemma collected_messages (d : list (key * msg_data)) acc :
  foldl (λ processed_messages entry, processed_messages ++ [join_entry entry.2])
        acc d
  = acc ++ ((λ entry, join_entry entry.2) <$> d).
Proof.
  revert acc. induction d as [|e d IH]; intros acc; simpl.
  - by rewrite app_nil_r.
  - rewrite IH. by rewrite <- app_assoc.
Qed.

Lemma process_batch_build ms ids :
  Forall2 has_id ms ids →
  process_batch_parallel ms
  = Ok ((λ entry, join_entry entry.2) <$> build [] (entries 0 ms ids)).
Proof.
  intros H. unfold FanOut.process_batch_parallel.
  rewrite (submit_all_build 0 ms ids [] H). simpl.
  by rewrite collected_messages.
Qed.

End SchedulerFacts.

Lemma twins_share_an_id : Forall2 has_id [first_twin; second_twin] ["MSG001"; "MSG001"].
Proof. repeat constructor. Qed.

(** Only the second twin gets a verdict, built from its own three tasks. *)
Example twins_processed :
  process_batch_parallel three_agents on_time [first_twin; second_twin]
  = Ok [verdict three_agents on_time 1 second_twin].
Proof. vm_compute. reflexivity. Qed.

Example second_twin_verdict :
  verdict three_agents on_time 1 second_twin !! "fraud_status" = Some (VStr "CLEAN")
  ∧ verdict three_agents on_time 1 second_twin !! "fraud_score"
    = Some (VNum (decimal 1667 2)).
Proof. vm_compute. done. Qed.

(* ===================================================================== *)
(** * Further properties of the correction loop *)
(* ===================================================================== *)

Lemma repair_amount_other (m : message) k :
  k ≠ "amount" → repair_amount m !! k = m !! k.
Proof.
  intros Hk. unfold repair_amount.
  destruct (m !! "amount") as [[| |amount| |]|]; try done.
  destruct (split amount) as [|part [|part' parts]]; try done.
  by rewrite lookup_insert_ne.
Qed.

Lemma repair_amount_done (m : message) :
  amount_settled m → repair_amount m = m.
Proof.
  intros H. unfold repair_amount.
  destruct (m !! "amount") as [[| |amount| |]|] eqn:Ea; try done.
  specialize (H amount Ea).
  by destruct (split amount) as [|part [|part' parts]].
Qed.

(** X1.  The local repair is idempotent and touches nothing but the
    amount: a second pass over a repaired message changes nothing, and
    every other key keeps its value. *)
Theorem repair_amount_idempotent (m : message) :
  repair_amount (repair_amount m) = repair_amount m
  ∧ ∀ k, k ≠ "amount" → repair_amount m !! k = m !! k.
Proof.
  split.
  - apply repair_amount_done, repair_amount_settled.
  - intros k. apply repair_amount_other.
Qed.

Section LoopFurther.
Context {Σ : Type}.
Variable evaluation_oracle : Σ → message → Σ * result (bool * list string).
Variable correction_oracle :
  Σ → message → list string → Σ * result (option message).

Local Abbreviation evaluate_message := (evaluate_message evaluation_oracle).
Local Abbreviation optimize_message := (optimize_message correction_oracle).
Local Abbreviation iterate := (iterate evaluation_oracle correction_oracle).
Local Abbreviation correct_message := (correct_message evaluation_oracle correction_oracle).
Local Abbreviation process_with_evaluator_optimizer :=
  (process_with_evaluator_optimizer evaluation_oracle correction_oracle).

(** X2.  One correction pass merges the reply key by key: away from the
    amount, a key of a dict reply takes the reply's value and every other
    key keeps the message's; a reply that is no dict, or a call that
    raised, leaves all of them as they were. *)
Theorem optimize_message_merges (w : world) (m : message) errors k :
  k ≠ "amount" →
  (optimize_message w m errors).2 !! k
  = match (correction_oracle (oracle_state w) m errors).2 with
    | Ok (Some d) => match d !! k with Some v => Some v | None => m !! k end
    | Ok None | Raise _ => m !! k
    end.
Proof.
  intros Hk. unfold CorrectionLoop.optimize_message, respond.
  destruct (correction_oracle (oracle_state w) m errors) as [σ [[d|]|e]];
    cbn [fst snd merge]; rewrite repair_amount_other by done.
  - rewrite lookup_union. by destruct (d !! k), (m !! k).
  - done.
  - by rewrite (idemp (∪) m).
Qed.

(** X3.  When the loop over one message returns, the message is marked.
    Either it is VALID with an empty error list, after one, two or three
    evaluations each but the last followed by a correction; or it is
    INVALID with a list of errors, and then the loop has made all three
    evaluations and both corrections. *)
Theorem correct_message_marks (w w' : world) (m m' : message) :
  correct_message w m = (w', Ok m') →
  ∃ log, calls w' = calls w ++ log
  ∧ ((m' !! "validation_status" = Some (VStr "VALID")
      ∧ m' !! "validation_errors" = Some (VStrs [])
      ∧ (log = [Evaluation]
         ∨ log = [Evaluation; Correction; Evaluation]
         ∨ log = budget_spent))
     ∨ (∃ errors,
          m' !! "validation_status" = Some (VStr "INVALID")
          ∧ m' !! "validation_errors" = Some (VStrs errors)
          ∧ log = budget_spent)).
Proof.
  unfold CorrectionLoop.correct_message.
  cbn [seq MAX_ITERATIONS CorrectionLoop.iterate].
  unfold CorrectionLoop.evaluate_message at 1.
  destruct (evaluation_oracle (oracle_state w) m) as [σ1 [[[] errors1]|e1]];
    [| |done].
  { intros [= <- <-]. exists [Evaluation]. split; [done|]. left.
    unfold mark. rewrite lookup_insert_ne, lookup_insert_eq, lookup_insert_eq by done.
    auto. }
  rewrite bool_decide_true by (unfold MAX_ITERATIONS; lia).
  unfold CorrectionLoop.optimize_message at 1, respond at 1. cbn [oracle_state calls].
  destruct (correction_oracle σ1 m errors1) as [σ2 reply1].
  set (m1 := repair_amount _).
  unfold CorrectionLoop.evaluate_message at 1. cbn [oracle_state calls].
  destruct (evaluation_oracle σ2 m1) as [σ3 [[[] errors2]|e2]]; [| |done].
  { intros [= <- <-]. exists [Evaluation; Correction; Evaluation].
    split; [by rewrite <- !app_assoc|]. left.
    unfold mark. rewrite lookup_insert_ne, lookup_insert_eq, lookup_insert_eq by done.
    auto. }
  rewrite bool_decide_true by (unfold MAX_ITERATIONS; lia).
  unfold CorrectionLoop.optimize_message at 1, respond at 1. cbn [oracle_state calls].
  destruct (correction_oracle σ3 m1 errors2) as [σ4 reply2].
  set (m2 := repair_amount _).
  unfold CorrectionLoop.evaluate_message at 1. cbn [oracle_state calls].
  destruct (evaluation_oracle σ4 m2) as [σ5 [[[] errors3]|e3]]; [| |done].
  { intros [= <- <-]. exists budget_spent.
    split; [by rewrite <- !app_assoc|]. left.
    unfold mark. rewrite lookup_insert_ne, lookup_insert_eq, lookup_insert_eq by done.
    auto. }
  rewrite bool_decide_false by (unfold MAX_ITERATIONS; lia).
  intros [= <- <-]. exists budget_spent.
  split; [by rewrite <- !app_assoc|]. right. exists errors3.
  unfold mark. rewrite lookup_insert_ne, lookup_insert_eq, lookup_insert_eq by done.
  auto.
Qed.

End LoopFurther.

Section LoopBatch.
Context {Σ : Type}.
Variable evaluation_oracle : Σ → message → Σ * result (bool * list string).
Variable correction_oracle :
  Σ → message → list string → Σ * result (option message).

Local Abbreviation evaluate_message := (evaluate_message evaluation_oracle).
Local Abbreviation optimize_message := (optimize_message correction_oracle).
Local Abbreviation iterate := (iterate evaluation_oracle correction_oracle).
Local Abbreviation correct_message := (correct_message evaluation_oracle correction_oracle).
Local Abbreviation process_with_evaluator_optimizer :=
  (process_with_evaluator_optimizer evaluation_oracle correction_oracle).

(** An exception that leaves the loop is the exception of an evaluation
    call, and that call is the last one logged. *)
Lemma iterate_raises iterations (w w' : world) m e :
  iterate iterations w m = (w', Raise e) →
  (∃ σ m0 σ', evaluation_oracle σ m0 = (σ', Raise e))
  ∧ ∃ log, calls w' = calls w ++ log ++ [Evaluation].
Proof.
  revert w m. induction iterations as [|iteration rest IH]; intros w m; simpl; [done|].
  unfold CorrectionLoop.evaluate_message.
  destruct (evaluation_oracle (oracle_state w) m) as [σ1 [[[] errors]|e1]] eqn:Ev.
  - done.
  - case_bool_decide as Hit.
    + pose proof (optimize_message_calls correction_oracle
                    (mkWorld σ1 (calls w ++ [Evaluation])) m errors) as Hop.
      destruct (optimize_message _ m errors) as [w2 m2]. simpl in Hop.
      intros Hrun. destruct (IH _ _ Hrun) as [Hsrc [log Hlog]].
      split; [done|]. exists ([Evaluation; Correction] ++ log).
      rewrite Hlog, Hop. by rewrite <- !app_assoc.
    + intros Hrun. destruct (IH _ _ Hrun) as [Hsrc [log Hlog]].
      split; [done|]. exists ([Evaluation] ++ log).
      rewrite Hlog. simpl. by rewrite <- !app_assoc.
  - intros [= <- <-]. split; [by eauto|]. by exists [].
Qed.

Lemma correct_message_calls (w : world) m :
  ∃ log, calls (correct_message w m).1 = calls w ++ log
         ∧ evaluations log ≤ 3 ∧ corrections log ≤ 2.
Proof. apply (iterate_calls evaluation_oracle correction_oracle (seq 0 MAX_ITERATIONS)). Qed.

(** X4.  The batch stops early for one reason only, an evaluation call
    that raises: whenever the batch raises, the exception is the one of
    an evaluation call and that call is the last call made; corrections
    that raise never surface.  In particular when the very first
    evaluation raises, the batch raises at once and no other message is
    looked at. *)
Theorem batch_stops_on_evaluation_failure (w : world) (messages : list message) :
  (∀ w' e,
     process_with_evaluator_optimizer w messages = (w', Raise e) →
     (∃ σ m σ', evaluation_oracle σ m = (σ', Raise e))
     ∧ ∃ log, calls w' = calls w ++ log ++ [Evaluation])
  ∧ (∀ m rest σ e,
       messages = m :: rest →
       evaluation_oracle (oracle_state w) m = (σ, Raise e) →
       process_with_evaluator_optimizer w messages
       = (mkWorld σ (calls w ++ [Evaluation]), Raise e)).
Proof.
  split.
  - revert w. induction messages as [|m rest IH]; intros w w' e; simpl; [done|].
    destruct (correct_message_calls w m) as (log1 & Hlog1 & _).
    destruct (correct_message w m) as [w1 [m1|e1]] eqn:Hm; simpl in Hlog1.
    + specialize (IH w1).
      destruct (process_with_evaluator_optimizer w1 rest) as [w2 [rs|e2]];
        simpl; [done|].
      intros [= <- <-]. destruct (IH w2 e2 eq_refl) as [Hsrc [log Hlog]].
      split; [done|]. exists (log1 ++ log). rewrite Hlog, Hlog1.
      by rewrite <- !app_assoc.
    + intros [= <- <-]. by apply (iterate_raises _ _ _ _ _ Hm).
  - intros m rest σ e -> Hev. simpl.
    unfold CorrectionLoop.correct_message. simpl.
    unfold CorrectionLoop.evaluate_message. by rewrite Hev.
Qed.

(** X5.  A batch of [n] messages costs at most [3 n] evaluation calls and
    [2 n] correction calls, whether it returns or raises, and when it
    returns it returns [n] messages. *)
Theorem batch_call_budget (w : world) (messages : list message) :
  ∃ log, calls (process_with_evaluator_optimizer w messages).1 = calls w ++ log
         ∧ evaluations log ≤ 3 * length messages
         ∧ corrections log ≤ 2 * length messages
         ∧ ∀ optimized,
             (process_with_evaluator_optimizer w messages).2 = Ok optimized →
             length optimized = length messages.
Proof.
  revert w. induction messages as [|m rest IH]; intros w; simpl.
  { exists []. rewrite app_nil_r. split_and!; [done|cbn; lia..|by intros ? [= <-]]. }
  destruct (correct_message_calls w m) as (log1 & Hlog1 & He1 & Hc1).
  destruct (correct_message w m) as [w1 [m1|e1]]; simpl in Hlog1.
  - destruct (IH w1) as (log & Hlog & He & Hc & Hlen).
    destruct (process_with_evaluator_optimizer w1 rest) as [w2 rs]. simpl in *.
    exists (log1 ++ log).
    rewrite Hlog, Hlog1, evaluations_app, corrections_app, <- app_assoc.
    split_and!; [done|lia..|].
    destruct rs as [rs|e]; simpl; [|done]. intros optimized [= <-]. simpl.
    by rewrite (Hlen rs).
  - exists log1. simpl. split_and!; [done|lia..|done].
Qed.

Lemma optimize_message_keeps (w : world) m errors k :
  k ≠ "amount" → replies_avoid correction_oracle k →
  (optimize_message w m errors).2 !! k = m !! k.
Proof.
  intros Hk Havoid. unfold CorrectionLoop.optimize_message, respond.
  destruct (correction_oracle (oracle_state w) m errors) as [σ [[d|]|e]] eqn:E;
    cbn [fst snd merge]; rewrite repair_amount_other by done.
  - rewrite lookup_union, (Havoid _ _ _ _ _ E). by destruct (m !! k).
  - done.
  - by rewrite (idemp (∪) m).
Qed.

Lemma mark_keeps status errors (m : message) k :
  k ≠ "validation_status" → k ≠ "validation_errors" →
  mark status errors m !! k = m !! k.
Proof. intros ??. unfold mark. by rewrite !lookup_insert_ne. Qed.

Lemma iterate_keeps iterations (w : world) m m' k :
  k ∉ loop_keys → replies_avoid correction_oracle k →
  (iterate iterations w m).2 = Ok m' → m' !! k = m !! k.
Proof.
  intros Hk Havoid. unfold loop_keys in Hk.
  rewrite !not_elem_of_cons in Hk. destruct Hk as (Ha & Hs & He & _).
  revert w m. induction iterations as [|iteration rest IH]; intros w m; simpl.
  { by intros [= <-]. }
  destruct (evaluate_message w m) as [w1 [[[] errors]|e]]; simpl; [| |done].
  - intros [= <-]. by apply mark_keeps.
  - case_bool_decide as Hit.
    + pose proof (optimize_message_keeps w1 m errors k Ha Havoid) as Hop.
      destruct (optimize_message w1 m errors) as [w2 m2]. simpl in Hop.
      intros Hrun. by rewrite (IH _ _ Hrun).
    + intros Hrun. rewrite (IH _ _ Hrun). by apply mark_keeps.
Qed.

(** X6.  The loop changes only what it is told to change: a key other
    than ['amount'], ['validation_status'] and ['validation_errors'] that
    no correction reply mentions has, when the loop returns, the value it
    had before. *)
Theorem correct_message_keeps (w : world) (m m' : message) k :
  k ∉ loop_keys →
  replies_avoid correction_oracle k →
  (correct_message w m).2 = Ok m' →
  m' !! k = m !! k.
Proof. apply iterate_keeps. Qed.

End LoopBatch.

Lemma optimize_message_merges_witness :
  "message_id" ≠ "amount"
  ∧ (optimize_message (renames_to "MSG999") fresh first_twin []).2 !! "message_id"
    = Some (VStr "MSG999").
Proof.
  split; [done|].
  exact (optimize_message_merges (renames_to "MSG999") fresh first_twin []
           "message_id" ltac:(done)).
Defined.

Lemma correct_message_marks_witness :
  correct_message never_valid service_down fresh bare_amount
  = (mkWorld () budget_spent,
     Ok (mark "INVALID" ["no currency"]
           (<["amount" := VStr "15000.00 USD"]> bare_amount)))
  ∧ ∃ log, budget_spent = calls fresh ++ log.
Proof.
  assert (correct_message never_valid service_down fresh bare_amount
          = (mkWorld () budget_spent,
             Ok (mark "INVALID" ["no currency"]
                   (<["amount" := VStr "15000.00 USD"]> bare_amount)))) as Hrun
    by (vm_compute; reflexivity).
  split; [exact Hrun|].
  destruct (correct_message_marks never_valid service_down fresh _ bare_amount _ Hrun)
    as (log & Hlog & _).
  by exists log.
Defined.

Lemma batch_stops_on_evaluation_failure_witness :
  process_with_evaluator_optimizer
    (λ (σ : unit) (_ : message), (σ, Raise (OracleError "no answer")))
    service_down fresh [bare_amount; wire_15000]
  = (mkWorld () [Evaluation], Raise (OracleError "no answer")).
Proof.
  exact (proj2 (batch_stops_on_evaluation_failure
                  (λ (σ : unit) (_ : message), (σ, Raise (OracleError "no answer")))
                  service_down fresh [bare_amount; wire_15000])
           bare_amount [wire_15000] () (OracleError "no answer") eq_refl eq_refl).
Defined.

Lemma correct_message_keeps_witness :
  ("message_id" ∉ loop_keys)
  ∧ replies_avoid service_down "message_id"
  ∧ (correct_message never_valid service_down fresh first_twin).2
    = Ok (mark "INVALID" ["no currency"] first_twin)
  ∧ mark "INVALID" ["no currency"] first_twin !! "message_id" = Some (VStr "MSG001").
Proof.
  assert ("message_id" ∉ loop_keys) as Hk.
  { unfold loop_keys. rewrite !not_elem_of_cons. split_and!; try done. apply not_elem_of_nil. }
  assert (replies_avoid service_down "message_id") as Havoid.
  { intros σ m errors σ' d. unfold service_down. intros [=]. }
  assert ((correct_message never_valid service_down fresh first_twin).2
          = Ok (mark "INVALID" ["no currency"] first_twin)) as Hrun
    by (vm_compute; reflexivity).
  split_and!; [exact Hk | exact Havoid | exact Hrun |].
  rewrite (correct_message_keeps never_valid service_down fresh first_twin _
             "message_id" Hk Havoid Hrun).
  reflexivity.
Defined.

(* ===================================================================== *)
(** * Further properties of the BIC validator *)
(* ===================================================================== *)

Section BicValidatorFurther.
Context {ch : Type}.
Variable ch_alpha ch_alnum : ch → bool.

Lemma chars_are_take (P : ch → bool) (s : list ch) n lo hi :
  hi ≤ n → chars_are P (take n s) lo hi ↔ chars_are P s lo hi.
Proof.
  intros Hn. unfold chars_are. split; intros H i c Hi Hc.
  - apply (H i); [done|]. rewrite lookup_take_lt by lia. done.
  - apply (H i); [done|]. rewrite lookup_take_lt in Hc by lia. done.
Qed.

Lemma chars_are_drop (P : ch → bool) (s : list ch) :
  length s = 11 → chars_are P s 8 11 ↔ forallb P (drop 8 s) = true.
Proof.
  intros Hlen. rewrite <- (forallb_slice P s 8 11) by lia.
  unfold slice. by rewrite take_ge by (rewrite length_drop; lia).
Qed.

(** X7.  The branch code is an optional suffix: a string of 11 characters
    is a valid BIC exactly when its first 8 characters are a valid BIC and
    its last 3 characters are alphanumeric. *)
Theorem validate_bic_branch (bic : list ch) :
  length bic = 11 →
  _validate_bic ch_alpha ch_alnum bic = true
  ↔ _validate_bic ch_alpha ch_alnum (take 8 bic) = true
    ∧ forallb ch_alnum (drop 8 bic) = true.
Proof.
  intros Hlen. rewrite !validate_bic_true. unfold bic_shape.
  rewrite length_take, Hlen.
  rewrite !chars_are_take by lia.
  rewrite <- (chars_are_drop ch_alnum bic Hlen).
  split.
  - intros (_ & H1 & H2 & H3 & H4). split; [|by apply H4].
    split_and!; [by left|done..|]. intros Hf. simpl in Hf. lia.
  - intros ((_ & H1 & H2 & H3 & _) & H4). split_and!; [by right|done..].
Qed.

Lemma validate_bic_fmap {ch'} (f : ch' → ch) (bic : list ch') :
  _validate_bic ch_alpha ch_alnum (f <$> bic)
  = _validate_bic (ch_alpha ∘ f) (ch_alnum ∘ f) bic.
Proof.
  assert (∀ P lo hi, forallb P (slice (f <$> bic) lo hi)
                     = forallb (P ∘ f) (slice bic lo hi)) as Hall.
  { intros P lo hi. unfold slice. rewrite <- fmap_drop, <- fmap_take.
    generalize (take (hi - lo) (drop lo bic)). intros l.
    induction l as [|x l IH]; [done|].
    rewrite fmap_cons. cbn [forallb]. by rewrite IH. }
  assert (∀ lo hi, slice (f <$> bic) lo hi = [] ↔ slice bic lo hi = []) as Hnil.
  { intros lo hi. unfold slice. rewrite <- fmap_drop, <- fmap_take.
    split; [apply fmap_nil_inv | by intros ->]. }
  assert (∀ P lo hi,
            match slice (f <$> bic) lo hi with [] => false | _ => forallb P (slice (f <$> bic) lo hi) end
            = match slice bic lo hi with [] => false | _ => forallb (P ∘ f) (slice bic lo hi) end)
    as Hcls.
  { intros P lo hi. rewrite Hall.
    destruct (slice bic lo hi) eqn:E1, (slice (f <$> bic) lo hi) eqn:E2; try done.
    - apply Hnil in E1. congruence.
    - apply Hnil in E2. congruence. }
  unfold _validate_bic, isalpha, isalnum.
  rewrite !Hcls, length_fmap. by destruct bic.
Qed.

End BicValidatorFurther.

Lemma validate_bic_ext {ch} (a1 a2 n1 n2 : ch → bool) (bic : list ch) :
  (∀ c, a1 c = a2 c) → (∀ c, n1 c = n2 c) →
  _validate_bic a1 n1 bic = _validate_bic a2 n2 bic.
Proof.
  intros Ha Hn.
  assert (∀ l, forallb a1 l = forallb a2 l) as Hfa.
  { induction l as [|x l IH]; simpl; [done|]. by rewrite Ha, IH. }
  assert (∀ l, forallb n1 l = forallb n2 l) as Hfn.
  { induction l as [|x l IH]; simpl; [done|]. by rewrite Hn, IH. }
  unfold _validate_bic, isalpha, isalnum. by rewrite !Hfa, !Hfn.
Qed.

Lemma ch_class_upper c :
  ch_isalpha (ch_upper c) = ch_isalpha c ∧ ch_isalnum (ch_upper c) = ch_isalnum c.
Proof. destruct c as [[] [] [] [] [] [] [] []]; split; reflexivity. Qed.

Lemma ch_class_lower c :
  ch_isalpha (ch_lower c) = ch_isalpha c ∧ ch_isalnum (ch_lower c) = ch_isalnum c.
Proof. destruct c as [[] [] [] [] [] [] [] []]; split; reflexivity. Qed.

Lemma chars_str_map f s : chars (str_map f s) = f <$> chars s.
Proof. induction s as [|c s IH]; simpl; [done|]. by rewrite IH. Qed.

Lemma ascii_text_exact : ascii_exact ascii_text.
Proof. intros s Hs. by split_and!. Qed.

(** X8.  On ASCII text, where the interpreter's case maps are the ASCII
    ones, the validator does not look at the case of letters: a BIC and
    its upper-cased and lower-cased forms get the same answer, so a BIC
    written in lower case is accepted. *)
Theorem validate_bic_ignores_case (rt : text) (bic : string) :
  ascii_exact rt →
  isascii bic = true →
  validate_bic_ascii (to_upper rt bic) = validate_bic_ascii bic
  ∧ validate_bic_ascii (to_lower rt bic) = validate_bic_ascii bic.
Proof.
  intros Hrt Hbic. destruct (Hrt bic Hbic) as (-> & -> & _).
  unfold validate_bic_ascii, upper, lower. rewrite !chars_str_map, !validate_bic_fmap.
  split; apply validate_bic_ext; intros c; simpl.
  - apply ch_class_upper.
  - apply ch_class_upper.
  - apply ch_class_lower.
  - apply ch_class_lower.
Qed.

Lemma validate_bic_ignores_case_witness :
  ascii_exact ascii_text
  ∧ isascii "chasus33xxx" = true
  ∧ validate_bic_ascii "CHASUS33XXX" = validate_bic_ascii "chasus33xxx".
Proof.
  split; [exact ascii_text_exact|]. split; [reflexivity|].
  exact (proj1 (validate_bic_ignores_case ascii_text "chasus33xxx"
                  ascii_text_exact eq_refl)).
Defined.

Lemma validate_bic_branch_witness :
  length (chars "CHASUS33XXX") = 11
  ∧ validate_bic_ascii "CHASUS33XXX" = true
  ∧ validate_bic_ascii "CHASUS33" = true.
Proof.
  split; [reflexivity|]. split; [reflexivity|].
  exact (proj1 (proj1 (validate_bic_branch ch_isalpha ch_isalnum
                         (chars "CHASUS33XXX") eq_refl) eq_refl)).
Defined.

(* ===================================================================== *)
(** * Further properties of the scoring agents *)
(* ===================================================================== *)

(** X9.  Whatever the message holds under its two BIC keys, the geographic
    agent returns one of three results: risk 0.0 with no reason, risk 0.4
    with one reason, or risk 0.8 with two; its clamp at 1.0 never acts. *)
Theorem geo_analyze_range (m : message) :
  (risk_score (geo_analyze m) = S754_zero false
   ∧ fraud_reasons (geo_analyze m) = [])
  ∨ (risk_score (geo_analyze m) = decimal 4 1
     ∧ length (fraud_reasons (geo_analyze m)) = 1)
  ∨ (risk_score (geo_analyze m) = decimal 8 1
     ∧ length (fraud_reasons (geo_analyze m)) = 2).
Proof.
  unfold geo_analyze, geo_try. cbv zeta.
  destruct (py_slice (get m "sender_bic" (VStr "")) 4 6) as [sender_country|];
    [|left; split; reflexivity].
  destruct (py_slice (get m "receiver_bic" (VStr "")) 4 6) as [receiver_country|];
    [|left; split; reflexivity].
  destruct (high_risk sender_country) as [[c1|]|];
    [| |left; split; reflexivity].
  - destruct (high_risk receiver_country) as [[c2|]|].
    + right. right. split; reflexivity.
    + right. left. split; reflexivity.
    + right. left. split; reflexivity.
  - destruct (high_risk receiver_country) as [[c2|]|].
    + right. left. split; reflexivity.
    + left. split; reflexivity.
    + left. split; reflexivity.
Qed.

Section AmountFurther.
Variable rt : text.
Variable float_text : float → string.

(** X10.  Whenever the amount agent returns, its risk lies between 0 and
    0.6, so its clamp at 1.0 never acts, and the risk is 0 exactly when
    it gives no reason. *)
Theorem amount_analyze_range (m : message) (r : AgentScore) :
  amount_analyze rt float_text m = Ok r →
  fle (of_Z 0) (risk_score r) = true
  ∧ fle (risk_score r) (decimal 6 1) = true
  ∧ (risk_score r = of_Z 0 ↔ fraud_reasons r = []).
Proof.
  unfold amount_analyze.
  assert (∀ st : tally,
            (∃ amount, st = amount_rules float_text amount) ∨ st = (of_Z 0, []) →
            let r := mkScore (V:=pyval) "FraudAmountDetectionAgent"
                       (py_min st.1 (decimal 10 1)) st.2 None None in
            fle (of_Z 0) (risk_score r) = true
            ∧ fle (risk_score r) (decimal 6 1) = true
            ∧ (risk_score r = of_Z 0 ↔ fraud_reasons r = [])) as Hst.
  { intros st [[amount ->]| ->]; [|by vm_compute].
    unfold amount_rules, bump.
    destruct (flt (of_Z 10000) amount),
             (feq (py_mod amount 1000) (of_Z 0) && flt (of_Z 0) amount),
             (flt (of_Z 100000) amount && negb (feq (py_mod amount 1) (of_Z 0)));
      (split_and!; [reflexivity | reflexivity | split; intros H; vm_compute in H; by inversion H]). }
  destruct (amount_try rt float_text m) as [st|e] eqn:E.
  - intros [= <-]. apply (Hst st). left.
    revert E. unfold amount_try.
    destruct (digits_and_dots _ _); [|done]. simpl.
    destruct (py_float _ _); [|done]. simpl. intros [= <-]. by eexists.
  - destruct e; try done; intros [= <-];
      exact (Hst (of_Z 0, []) (or_intror eq_refl)).
Qed.

End AmountFurther.

Lemma amount_analyze_range_witness :
  amount_analyze ascii_text plain_text wire_15000
  = Ok (amount_record (decimal 5 1)
          ["High amount transaction: <float>"; "Suspiciously round amount: <float>"])
  ∧ fle (decimal 5 1) (decimal 6 1) = true.
Proof.
  assert (amount_analyze ascii_text plain_text wire_15000
          = Ok (amount_record (decimal 5 1)
                  ["High amount transaction: <float>";
                   "Suspiciously round amount: <float>"])) as Hrun
    by (vm_compute; reflexivity).
  split; [exact Hrun|].
  exact (proj1 (proj2 (amount_analyze_range ascii_text plain_text wire_15000 _ Hrun))).
Defined.

(** *** When the amount cannot be read *)

Lemma dot_is_no_digit c : is_dot c = true → ch_isdigit c = false.
Proof. unfold is_dot. intros ->%Ascii.eqb_eq. reflexivity. Qed.

(** On ASCII text the stripping goes character by character. *)
Lemma strip_amount_unfold s :
  strip_amount ascii_text s = str_filter (λ c, ch_isdigit c || is_dot c) s.
Proof.
  unfold strip_amount. cbn [isdigit characters ascii_text].
  induction s as [|c s IH]; [done|].
  change (chars (String c s)) with (c :: chars s). rewrite fmap_cons.
  assert (str_isdigit (String c "") || String.eqb (String c "") "."
          = ch_isdigit c || is_dot c) as Hc.
  { unfold str_isdigit, is_dot. cbn [String.eqb str_forall negb].
    rewrite andb_true_r. by destruct (Ascii.eqb c "."). }
  cbn [str_filter]. destruct (ch_isdigit c || is_dot c) eqn:E.
  - rewrite filter_cons_True by (by rewrite Hc).
    cbn [join]. by rewrite str_app_cons, str_app_nil, IH.
  - rewrite filter_cons_False by (rewrite Hc; intros []). apply IH.
Qed.

Lemma to_float_ascii t :
  to_float ascii_text t = None ↔ float_of_digits t = Raise ValueError.
Proof.
  cbn [to_float ascii_text].
  destruct (float_of_digits t) as [x|e] eqn:E; [done|].
  by apply float_of_digits_raises in E as ->.
Qed.

Lemma count_strip f s :
  (∀ c, f c = true → ch_isdigit c || is_dot c = true) →
  count_ch f (strip_amount ascii_text s) = count_ch f s.
Proof.
  intros Hf. rewrite strip_amount_unfold.
  induction s as [|c s IH]; [done|]. cbn [str_filter count_ch].
  destruct (ch_isdigit c || is_dot c) eqn:Ek; cbn [count_ch]; rewrite IH; [done|].
  destruct (f c) eqn:Efc; [|done]. apply Hf in Efc. congruence.
Qed.

Lemma strip_kept s :
  str_forall (λ c, ch_isdigit c || is_dot c) (strip_amount ascii_text s) = true.
Proof.
  rewrite strip_amount_unfold.
  induction s as [|c s IH]; [done|]. cbn [str_filter].
  destruct (ch_isdigit c || is_dot c) eqn:Ek; [|done].
  cbn [str_forall]. by rewrite Ek.
Qed.

Lemma all_digits_count t :
  str_forall (λ c, ch_isdigit c || is_dot c) t = true →
  (str_forall ch_isdigit t = true ↔ dots_in t = 0)
  ∧ (str_forall ch_isdigit t = true → digits_in t = String.length t).
Proof.
  unfold dots_in, digits_in. induction t as [|c t IH]; simpl; [done|].
  rewrite andb_true_iff. intros [Hc Ht]. destruct (IH Ht) as [IH1 IH2].
  destruct (ch_isdigit c) eqn:Ed; simpl in *.
  - assert (is_dot c = false) as ->.
    { destruct (is_dot c) eqn:E; [|done]. apply dot_is_no_digit in E. congruence. }
    simpl. split; [done|]. intros H. by rewrite IH2.
  - rewrite Hc. simpl. split; [split; [done|lia] | done].
Qed.

Lemma cut_at_dot_counts t :
  str_forall (λ c, ch_isdigit c || is_dot c) t = true →
  str_forall ch_isdigit (cut_at_dot t).1 = true
  ∧ digits_in t
    = String.length (cut_at_dot t).1 + digits_in (default EmptyString (cut_at_dot t).2)
  ∧ dots_in t
    = match (cut_at_dot t).2 with
      | None => 0
      | Some t' => S (dots_in t')
      end
  ∧ str_forall (λ c, ch_isdigit c || is_dot c)
      (default EmptyString (cut_at_dot t).2) = true.
Proof.
  unfold dots_in, digits_in. induction t as [|c t IH]; simpl; [done|].
  rewrite andb_true_iff. intros [Hc Ht]. fold (is_dot c).
  destruct (is_dot c) eqn:Edot; simpl.
  - rewrite (dot_is_no_digit c Edot). done.
  - rewrite orb_false_r in Hc. rewrite Hc.
    destruct (IH Ht) as (H1 & H2 & H3 & H4).
    destruct (cut_at_dot t) as [a r]. simpl in *. rewrite Hc, H1, H2.
    split_and!; done.
Qed.

Lemma str_app_length (a b : string) :
  String.length (a +:+ b) = String.length a + String.length b.
Proof.
  induction a as [|c a IH]; [done|]. rewrite str_app_cons. simpl. by rewrite IH.
Qed.

Lemma str_empty_length (a : string) : String.eqb a "" = true ↔ String.length a = 0.
Proof. by destruct a. Qed.

Lemma unreadable_amount s :
  float_of_digits (strip_amount ascii_text s) = Raise ValueError
  ↔ digits_in s = 0 ∨ 2 ≤ dots_in s.
Proof.
  unfold digits_in, dots_in.
  rewrite <- (count_strip ch_isdigit s) by (by intros c ->).
  rewrite <- (count_strip is_dot s) by (intros c ->; apply orb_true_r).
  fold (digits_in (strip_amount ascii_text s)). fold (dots_in (strip_amount ascii_text s)).
  pose proof (cut_at_dot_counts _ (strip_kept s)) as (Hint & Hdig & Hdot & Hrest).
  unfold float_of_digits.
  destruct (cut_at_dot (strip_amount ascii_text s)) as [int_part rest]. simpl in *.
  rewrite Hint. simpl.
  destruct (all_digits_count _ Hrest) as [Hfrac Hlen].
  destruct (str_forall ch_isdigit (default EmptyString rest)) eqn:Ef; simpl.
  - rewrite Hlen in Hdig by done.
    assert (dots_in (default EmptyString rest) = 0) as Hz by (by apply Hfrac).
    assert (dots_in (strip_amount ascii_text s) ≤ 1) as Hle.
    { rewrite Hdot. destruct rest; simpl in *; lia. }
    destruct (String.eqb (int_part +:+ default EmptyString rest) "") eqn:Ee.
    + apply str_empty_length in Ee. rewrite str_app_length in Ee.
      split; [intros _; left; lia | done].
    + split; [done|]. intros [H0|H2]; [|lia].
      assert (String.length (int_part +:+ default EmptyString rest) = 0) as Hl
        by (rewrite str_app_length; lia).
      apply str_empty_length in Hl. congruence.
  - split; [intros _|done]. right.
    assert (dots_in (default EmptyString rest) ≠ 0) as Hnz.
    { intros H0. apply Hfrac in H0. congruence. }
    rewrite Hdot. destruct rest as [t'|]; simpl in *; [lia|].
    by vm_compute in Hnz.
Qed.

Lemma filter_agree {A} (f g : A → bool) (l : list A) :
  Forall (λ x, f x = g x) l → filter (λ x, f x) l = filter (λ x, g x) l.
Proof.
  induction 1 as [|x l Hx _ IH]; [done|].
  rewrite !filter_cons, IH. by destruct (f x), (g x).
Qed.

Lemma digits_and_dots_isascii t :
  str_forall (λ c, ch_isdigit c || is_dot c) t = true → isascii t = true.
Proof.
  unfold isascii. induction t as [|c t IH]; simpl; [done|].
  rewrite !andb_true_iff. intros [Hc Ht]. split; [|by apply IH].
  destruct (ch_isdigit c) eqn:Ed.
  - revert Ed. unfold ch_isdigit, ch_isascii, between.
    rewrite andb_true_iff, !Nat.leb_le, Nat.ltb_lt. lia.
  - simpl in Hc. unfold is_dot in Hc. by apply Ascii.eqb_eq in Hc as ->.
Qed.

Section Unreadable.
Variable rt : text.
Hypothesis Hrt : ascii_exact rt.

Lemma strip_amount_exact s :
  isascii s = true → strip_amount rt s = strip_amount ascii_text s.
Proof using Hrt.
  intros Hs. unfold strip_amount.
  destruct (Hrt s Hs) as (_ & _ & -> & _). f_equal.
  cbn [characters isdigit ascii_text].
  apply (filter_agree (λ c, isdigit rt c || String.eqb c ".")
                      (λ c, str_isdigit c || String.eqb c ".")).
  revert Hs. unfold isascii.
  induction s as [|c s IH]; simpl; [by constructor|].
  rewrite andb_true_iff. intros [Hc Hs]. constructor; [|by apply IH].
  destruct (Hrt (String c "")) as (_ & _ & _ & -> & _); [|done].
  unfold isascii. simpl. by rewrite Hc.
Qed.

Lemma unreadable_exact s :
  isascii s = true →
  to_float rt (strip_amount rt s) = None ↔ digits_in s = 0 ∨ 2 ≤ dots_in s.
Proof using Hrt.
  intros Hs. rewrite (strip_amount_exact s Hs).
  pose proof (strip_kept s) as Hkept.
  destruct (Hrt _ (digits_and_dots_isascii _ Hkept)) as (_ & _ & _ & _ & ->);
    [|done].
  rewrite to_float_ascii. apply unreadable_amount.
Qed.

(** X11.  On ASCII text, where the interpreter's functions are the ASCII
    ones: a str amount cannot be read exactly when it holds no digit at
    all or at least two dots, wherever they stand; the amount agent then
    reports risk 0 and no reason.  An amount with dots between the
    thousands, like ["1.000.000 EUR"], is such an amount. *)
Theorem amount_unreadable (float_text : float → string) (m : message) s :
  amount_text m = Some s →
  isascii s = true →
  (to_float rt (strip_amount rt s) = None
   ↔ digits_in s = 0 ∨ 2 ≤ dots_in s)
  ∧ (digits_in s = 0 ∨ 2 ≤ dots_in s →
     amount_analyze rt float_text m = Ok (amount_record (of_Z 0) [])).
Proof using Hrt.
  intros Hs Hascii. split; [by apply unreadable_exact|]. intros H.
  apply (unreadable_exact s Hascii) in H.
  unfold amount_analyze.
  rewrite (amount_analyze_text rt float_text m s Hs). unfold py_float.
  by rewrite H.
Qed.

End Unreadable.

Lemma amount_unreadable_witness :
  ascii_exact ascii_text
  ∧ amount_text dotted_million = Some "1.000.000 EUR"
  ∧ isascii "1.000.000 EUR" = true
  ∧ dots_in "1.000.000 EUR" = 2
  ∧ amount_analyze ascii_text plain_text dotted_million
    = Ok (amount_record (of_Z 0) []).
Proof.
  split; [exact ascii_text_exact|].
  split; [reflexivity|]. split; [reflexivity|]. split; [reflexivity|].
  apply (proj2 (amount_unreadable ascii_text ascii_text_exact plain_text
                  dotted_million "1.000.000 EUR" eq_refl eq_refl)).
  right. vm_compute. done.
Defined.

(** *** The pattern agent *)

Section PatternFurther.
Variable rt : text.

(** X12.  On a message with str BICs and an optional remittance text the
    pattern agent always returns, its risk lies between 0 and 1, and the
    risk is 0 exactly when it gives no reason. *)
Theorem pattern_analyze_range (m : message) sender receiver text :
  bic_text m "sender_bic" = Some sender →
  bic_text m "receiver_bic" = Some receiver →
  remittance_text m = Some text →
  ∃ r, pattern_analyze rt m = Ok r
       ∧ fle (of_Z 0) (risk_score r) = true
       ∧ fle (risk_score r) (decimal 10 1) = true
       ∧ (risk_score r = of_Z 0 ↔ fraud_reasons r = []).
Proof.
  intros Hs Hr Ht. eexists. split; [by apply pattern_analyze_text|].
  cbn [risk_score fraud_reasons pattern_record].
  unfold pattern_score, pattern_reasons, high_risk_patterns, suspicious_keywords.
  cbn [List.filter].
  destruct (pattern_found rt sender receiver "TEST"),
           (pattern_found rt sender receiver "FAKE"),
           (pattern_found rt sender receiver "DEMO"),
           (pattern_found rt sender receiver "999"),
           (pattern_found rt sender receiver "000000"),
           (same_nonempty sender receiver),
           (keyword_found rt text "urgent"),
           (keyword_found rt text "immediately"),
           (keyword_found rt text "secret"),
           (keyword_found rt text "confidential");
    (split_and!;
     [reflexivity | reflexivity | split; intros H; vm_compute in H; by inversion H]).
Qed.

End PatternFurther.

Lemma pattern_analyze_range_witness :
  bic_text chase_to_chase "sender_bic" = Some "CHASUS33XXX"
  ∧ bic_text chase_to_chase "receiver_bic" = Some "CHASUS33XXX"
  ∧ remittance_text chase_to_chase = Some ""
  ∧ ∃ r, pattern_analyze ascii_text chase_to_chase = Ok r
         ∧ fle (risk_score r) (decimal 10 1) = true.
Proof.
  split_and!; [reflexivity..|].
  destruct (pattern_analyze_range ascii_text chase_to_chase
              "CHASUS33XXX" "CHASUS33XXX" ""
              eq_refl eq_refl eq_refl) as (r & Hr & _ & Hle & _).
  exists r. split; [exact Hr | exact Hle].
Defined.

Lemma ch_upper_upper c : ch_upper (ch_upper c) = ch_upper c.
Proof. destruct c as [[] [] [] [] [] [] [] []]; reflexivity. Qed.

Lemma ch_lower_upper c : ch_lower (ch_upper c) = ch_lower c.
Proof. destruct c as [[] [] [] [] [] [] [] []]; reflexivity. Qed.

Lemma ch_upper_isascii c : ch_isascii (ch_upper c) = ch_isascii c.
Proof. destruct c as [[] [] [] [] [] [] [] []]; reflexivity. Qed.

Lemma upper_upper s : upper (upper s) = upper s.
Proof.
  unfold upper. induction s as [|c s IH]; simpl; [done|].
  by rewrite ch_upper_upper, IH.
Qed.

Lemma lower_upper s : lower (upper s) = lower s.
Proof.
  unfold lower, upper. induction s as [|c s IH]; simpl; [done|].
  by rewrite ch_lower_upper, IH.
Qed.

Lemma upper_isascii s : isascii (upper s) = isascii s.
Proof.
  unfold isascii, upper. induction s as [|c s IH]; simpl; [done|].
  by rewrite ch_upper_isascii, IH.
Qed.

Lemma get_insert_ne (m : message) k k' v dflt :
  k ≠ k' → get (<[k := v]> m) k' dflt = get m k' dflt.
Proof. intros. unfold get. by rewrite lookup_insert_ne. Qed.

Lemma get_insert_eq (m : message) k v dflt : get (<[k := v]> m) k dflt = v.
Proof. unfold get. by rewrite lookup_insert_eq. Qed.

Section IgnoreCase.
Variable rt : text.
Hypothesis Hrt : ascii_exact rt.

Lemma to_upper_ascii s : isascii s = true → to_upper rt s = upper s.
Proof using Hrt. intros Hs. by destruct (Hrt s Hs) as (-> & _). Qed.

Lemma to_lower_ascii s : isascii s = true → to_lower rt s = lower s.
Proof using Hrt. intros Hs. by destruct (Hrt s Hs) as (_ & -> & _). Qed.

Lemma to_upper_twice s :
  isascii s = true → to_upper rt (to_upper rt s) = to_upper rt s.
Proof using Hrt.
  intros Hs. rewrite (to_upper_ascii s Hs).
  rewrite to_upper_ascii by (by rewrite upper_isascii).
  apply upper_upper.
Qed.

Lemma to_lower_upper s :
  isascii s = true → to_lower rt (to_upper rt s) = to_lower rt s.
Proof using Hrt.
  intros Hs. rewrite (to_upper_ascii s Hs), (to_lower_ascii s Hs).
  rewrite to_lower_ascii by (by rewrite upper_isascii).
  apply lower_upper.
Qed.

(** X13.  On ASCII text, where the interpreter's case maps are the ASCII
    ones, the two scans of the pattern agent are blind to case: the scan
    of the BICs for patterns gives the same tally on upper-cased BICs, and
    the whole analysis is the same on a message whose remittance text has
    been upper-cased. *)
Theorem pattern_scans_ignore_case :
  (∀ patterns sender receiver st,
     isascii sender = true → isascii receiver = true →
     pattern_loop rt patterns
       (VStr (to_upper rt sender)) (VStr (to_upper rt receiver)) st
     = pattern_loop rt patterns (VStr sender) (VStr receiver) st)
  ∧ (∀ (m : message) text,
       isascii text = true →
       pattern_analyze rt (<["remittance_info" := VStr (to_upper rt text)]> m)
       = pattern_analyze rt (<["remittance_info" := VStr text]> m)).
Proof using Hrt.
  split.
  - intros patterns sender receiver st Hs Hr. rewrite !pattern_loop_text.
    assert (∀ p, pattern_found rt (to_upper rt sender) (to_upper rt receiver) p
                 = pattern_found rt sender receiver p) as Hp.
    { intros p. unfold pattern_found. by rewrite !to_upper_twice. }
    assert (List.filter
              (pattern_found rt (to_upper rt sender) (to_upper rt receiver)) patterns
            = List.filter (pattern_found rt sender receiver) patterns) as ->; [|done].
    induction patterns as [|p patterns IH]; simpl; [done|]. by rewrite Hp, IH.
  - intros m text Ht. unfold pattern_analyze, get. cbv zeta.
    rewrite !lookup_insert_eq. rewrite !lookup_insert_ne by done.
    cbn [default].
    destruct (pattern_loop _ _ _ _ _) as [st|e]; cbn [mbind result_bind id];
      [|reflexivity].
    rewrite (to_upper_ascii text Ht).
    destruct text as [|c text]; [reflexivity|].
    cbn [truthy upper str_map String.eqb negb py_lower mbind result_bind].
    change (String (ch_upper c) (upper text)) with (upper (String c text)).
    rewrite <- (to_upper_ascii _ Ht). by rewrite to_lower_upper.
Qed.

End IgnoreCase.

Lemma pattern_scans_ignore_case_witness :
  ascii_exact ascii_text
  ∧ pattern_analyze ascii_text {[ "remittance_info" := VStr "URGENT" ]}
    = pattern_analyze ascii_text {[ "remittance_info" := VStr "urgent" ]}.
Proof.
  split; [exact ascii_text_exact|].
  exact (proj2 (pattern_scans_ignore_case ascii_text ascii_text_exact)
           ∅ "urgent" eq_refl).
Defined.

Section PatternRaise.
Variable rt : text.

(** X14.  A sender BIC that is present but is not a str makes the pattern
    agent raise AttributeError, whatever else the message holds; the
    per-task wrapper turns that into the record with risk 0, no reason and
    the error text, so the agent still counts in the average. *)
Theorem pattern_agent_needs_str_sender (m : message) v :
  m !! "sender_bic" = Some v →
  (∀ s, v ≠ VStr s) →
  pattern_analyze rt m = Raise AttributeError
  ∧ _process_message m (mkScorer "FraudPatternDetectionAgent" (pattern_analyze rt))
    = mkScore "FraudPatternDetectionAgent" (of_Z 0) [] None (Some "AttributeError").
Proof.
  intros Hv Hstr.
  assert (pattern_analyze rt m = Raise AttributeError) as Hraise.
  { unfold pattern_analyze, get. rewrite Hv. cbv zeta.
    unfold high_risk_patterns. cbn [pattern_loop bic_hit default].
    destruct v as [| |s| |]; try done. by destruct (Hstr s). }
  split; [done|]. unfold _process_message. cbn [analyze class_name].
  by rewrite Hraise.
Qed.

End PatternRaise.

Lemma pattern_agent_needs_str_sender_witness :
  no_sender !! "sender_bic" = Some VNone
  ∧ pattern_analyze ascii_text no_sender = Raise AttributeError.
Proof.
  split; [reflexivity|].
  exact (proj1 (pattern_agent_needs_str_sender ascii_text no_sender VNone eq_refl
                  ltac:(intros s; discriminate))).
Defined.

(* ===================================================================== *)
(** * Further properties of the aggregator and the fan-out *)
(* ===================================================================== *)

Lemma aggregated_reasons_tagged (scores : list AgentScore) :
  aggregated_reasons (aggregate_results scores) = tagged_reasons scores.
Proof.
  destruct scores as [|r rs]; [done|].
  exact (all_reasons_app [] (r :: rs)).
Qed.

(** X15.  The aggregator neither drops nor repeats a reason: the reasons of
    two lists of agent records put together are the reasons of the first
    followed by the reasons of the second, and the aggregate of a list
    carries as many reasons as its records carry between them. *)
Theorem aggregated_reasons_complete (a b : list AgentScore) :
  aggregated_reasons (aggregate_results (a ++ b))
  = aggregated_reasons (aggregate_results a)
    ++ aggregated_reasons (aggregate_results b)
  ∧ length (aggregated_reasons (aggregate_results a))
    = sum_list ((λ r, length (fraud_reasons r)) <$> a).
Proof.
  rewrite !aggregated_reasons_tagged. unfold tagged_reasons. split.
  - apply bind_app.
  - induction a as [|r a IH]; [done|].
    rewrite bind_cons, length_app, length_fmap, fmap_cons. simpl. by rewrite IH.
Qed.

Lemma collect_from (acc : list AgentScore) (futures : list future) :
  foldl (λ (agent_results : list AgentScore) (f : future),
           match f with
           | Ok r => agent_results ++ [r]
           | Raise _ => agent_results
           end) acc futures
  = acc ++ omap delivered futures.
Proof.
  revert acc. induction futures as [|[r|e] fs IH]; intros acc; simpl.
  - by rewrite app_nil_r.
  - rewrite IH. by rewrite <- app_assoc.
  - apply IH.
Qed.

Lemma collect_delivered (futures : list future) :
  collect futures = omap delivered futures.
Proof. exact (collect_from [] futures). Qed.

Lemma delivered_sublist (t : nat → bool) (m : message) (l : list scorer) :
  omap delivered
       (imap (λ j a, if t j then Raise TimeoutError else Ok (_process_message m a)) l)
  `sublist_of` (_process_message m <$> l).
Proof.
  revert t. induction l as [|a l IH]; intros t; simpl; [done|].
  destruct (t 0); simpl.
  - apply sublist_cons. exact (IH (t ∘ S)).
  - apply sublist_skip. exact (IH (t ∘ S)).
Qed.

Lemma delivered_none (t : nat → bool) (m : message) (l : list scorer) :
  (∀ j, j < length l → t j = true) →
  omap delivered
       (imap (λ j a, if t j then Raise TimeoutError else Ok (_process_message m a)) l)
  = [].
Proof.
  revert t. induction l as [|a l IH]; intros t H; simpl; [done|].
  rewrite (H 0) by (simpl; lia). simpl.
  apply (IH (t ∘ S)). intros j Hj. apply H. simpl. lia.
Qed.

Lemma delivered_all (t : nat → bool) (m : message) (l : list scorer) :
  (∀ j, j < length l → t j = false) →
  omap delivered
       (imap (λ j a, if t j then Raise TimeoutError else Ok (_process_message m a)) l)
  = _process_message m <$> l.
Proof.
  revert t. induction l as [|a l IH]; intros t H; simpl; [done|].
  rewrite (H 0) by (simpl; lia). simpl. f_equal.
  apply (IH (t ∘ S)). intros j Hj. apply H. simpl. lia.
Qed.

Section CollectFacts.
Variable agents : list scorer.
Variable timed_out : nat → nat → bool.

Local Abbreviation submit_agents := (submit_agents agents timed_out).

(** X16.  What is collected for a message is made of that message's own
    records and nothing else: the records of the agents, in the order of
    the agent list, with those of the tasks that did not deliver left out.
    When every task delivers there is exactly one record per agent, and
    every record is the one the wrapper built, a failure record included. *)
Theorem collect_in_agent_order (i : nat) (m : message) :
  collect (submit_agents i m) `sublist_of` (_process_message m <$> agents)
  ∧ ((∀ j, j < length agents → timed_out i j = false) →
     collect (submit_agents i m) = _process_message m <$> agents).
Proof.
  rewrite collect_delivered. split.
  - apply (delivered_sublist (timed_out i)).
  - apply (delivered_all (timed_out i)).
Qed.

(** X17.  A message none of whose tasks delivers in time is annotated as
    clean: an empty analysis, status CLEAN, score 0 and no reasons, so the
    clean-message filter of the pipeline lets it through. *)
Theorem unanswered_message_is_clean (i : nat) (m : message) :
  (∀ j, j < length agents → timed_out i j = true) →
  verdict agents timed_out i m
  = <["fraud_reasons" := VStrs []]>
      (<["fraud_score" := VNum (of_Z 0)]>
         (<["fraud_status" := VStr "CLEAN"]>
            (<["fraud_analysis" := VScores []]> m)))
  ∧ Main.not_fraudulent (verdict agents timed_out i m) = true.
Proof.
  intros H. unfold verdict.
  assert (collect (submit_agents i m) = []) as ->.
  { rewrite collect_delivered. by apply (delivered_none (timed_out i)). }
  split; [done|].
  unfold Main.not_fraudulent, annotate.
  rewrite lookup_insert_ne by done. rewrite lookup_insert_ne by done.
  by rewrite lookup_insert_eq.
Qed.

End CollectFacts.

Lemma unanswered_message_is_clean_witness :
  Main.not_fraudulent (verdict three_agents too_late 1 second_twin) = true.
Proof.
  exact (proj2 (unanswered_message_is_clean three_agents too_late 1 second_twin
                  (λ j _, eq_refl))).
Defined.

Lemma annotate_other (m : message) (rs : list AgentScore) k :
  k ∉ fraud_keys → annotate m rs !! k = m !! k.
Proof.
  unfold fraud_keys. rewrite !not_elem_of_cons. intros (? & ? & ? & ? & _).
  unfold annotate. by rewrite !lookup_insert_ne.
Qed.

Lemma annotate_status (m : message) (rs : list AgentScore) :
  annotate m rs !! "fraud_status"
  = Some (VStr (if is_fraudulent (aggregate_results rs)
                then "FRAUDULENT" else "CLEAN")).
Proof.
  unfold annotate.
  rewrite lookup_insert_ne by done. rewrite lookup_insert_ne by done.
  by rewrite lookup_insert_eq.
Qed.

Lemma annotate_annotate (m : message) (rs rs' : list AgentScore) :
  annotate (annotate m rs') rs = annotate m rs.
Proof.
  apply map_eq. intros k. unfold annotate.
  rewrite !lookup_insert. by repeat case_decide.
Qed.

(** X18.  Scoring writes the four fraud keys and nothing else; it
    overwrites an earlier verdict without a trace; and the message passes
    the clean-message filter exactly when the aggregate of its records is
    not fraudulent. *)
Theorem annotate_overwrites (m : message) (rs rs' : list AgentScore) :
  (∀ k, k ∉ fraud_keys → annotate m rs !! k = m !! k)
  ∧ annotate m rs !! "fraud_analysis" = Some (VScores rs)
  ∧ annotate (annotate m rs') rs = annotate m rs
  ∧ Main.not_fraudulent (annotate m rs)
    = negb (is_fraudulent (aggregate_results rs)).
Proof.
  split_and!.
  - intros k. apply annotate_other.
  - unfold annotate. rewrite !lookup_insert_ne by done. by rewrite lookup_insert_eq.
  - apply annotate_annotate.
  - unfold Main.not_fraudulent. rewrite annotate_status.
    by destruct (is_fraudulent (aggregate_results rs)).
Qed.

Lemma get_same (m m' : message) k dflt :
  m !! k = m' !! k → get m k dflt = get m' k dflt.
Proof. unfold get. by intros ->. Qed.

Lemma same_inputs_get (m m' : message) k dflt :
  same_inputs m m' → k ∈ input_keys → get m k dflt = get m' k dflt.
Proof. intros H Hk. apply get_same, H, Hk. Qed.

Lemma input_keys_elem :
  "amount" ∈ input_keys ∧ "sender_bic" ∈ input_keys ∧ "receiver_bic" ∈ input_keys
  ∧ "remittance_info" ∈ input_keys ∧ "message_id" ∈ input_keys.
Proof. unfold input_keys. rewrite !elem_of_cons. naive_solver. Qed.

Lemma process_message_same_inputs rt float_text (m m' : message) (a : scorer) :
  same_inputs m m' → a ∈ list_of_agents rt float_text →
  _process_message m a = _process_message m' a.
Proof.
  intros H Ha. destruct input_keys_elem as (Ka & Ks & Kr & Ki & Kid).
  unfold _process_message. rewrite (same_inputs_get m m' "message_id" _ H Kid).
  assert (analyze a m = analyze a m') as ->; [|done].
  unfold list_of_agents in Ha. rewrite !elem_of_cons in Ha.
  destruct Ha as [->|[->|[->|Ha]]]; [| | |by apply elem_of_nil in Ha];
    cbn [analyze].
  - unfold amount_analyze, amount_try.
    by rewrite (same_inputs_get m m' "amount" _ H Ka).
  - unfold pattern_analyze.
    by rewrite (same_inputs_get m m' "sender_bic" _ H Ks),
               (same_inputs_get m m' "receiver_bic" _ H Kr),
               (same_inputs_get m m' "remittance_info" _ H Ki).
  - unfold geo_analyze.
    by rewrite (same_inputs_get m m' "sender_bic" _ H Ks),
               (same_inputs_get m m' "receiver_bic" _ H Kr).
Qed.

(** X19.  The three agents of the repository and the wrapper around them
    read five keys of a message and no other: two messages that agree on
    the amount, the two BICs, the remittance text and the id get the same
    record from each agent, whatever else they carry. *)
Theorem agents_read_input_keys rt float_text (m m' : message) (a : scorer) :
  same_inputs m m' →
  a ∈ list_of_agents rt float_text →
  _process_message m a = _process_message m' a.
Proof. apply process_message_same_inputs. Qed.

Lemma annotate_same_inputs (m : message) (rs : list AgentScore) :
  same_inputs (annotate m rs) m.
Proof.
  intros k Hk. apply annotate_other. intros Hf.
  unfold input_keys in Hk. unfold fraud_keys in Hf.
  rewrite !elem_of_cons in Hk. rewrite !elem_of_cons in Hf.
  destruct Hk as [->|[->|[->|[->|[->|Hk]]]]]; [..|by apply elem_of_nil in Hk];
    destruct Hf as [?|[?|[?|[?|Hf]]]]; try done; by apply elem_of_nil in Hf.
Qed.

Lemma annotate_has_id (m : message) (rs : list AgentScore) id :
  has_id m id → has_id (annotate m rs) id.
Proof.
  unfold has_id. intros <-. apply annotate_same_inputs, input_keys_elem.
Qed.

Lemma imap_keeps_ids (f : nat → message → message) (ms : list message) ids :
  (∀ j m id, has_id m id → has_id (f j m) id) →
  Forall2 has_id ms ids → Forall2 has_id (imap f ms) ids.
Proof.
  intros Hf H. revert f Hf. induction H as [|m id ms ids Hm _ IH]; intros f Hf; simpl.
  { constructor. }
  constructor; [by apply Hf|]. apply IH. intros j m' id'. apply Hf.
Qed.

Section DistinctIds.
Variable agents : list scorer.
Variable timed_out : nat → nat → bool.

Lemma process_batch_distinct (ms : list message) (ids : list string) :
  Forall2 has_id ms ids → NoDup ids →
  process_batch_parallel agents timed_out ms
  = Ok (imap (verdict agents timed_out) ms).
Proof.
  intros Hids Hnd. rewrite (process_batch_build agents timed_out ms ids Hids).
  rewrite build_distinct; [| by rewrite entries_ids | done].
  simpl. f_equal. rewrite <- list_fmap_compose.
  transitivity ((λ e : string * msg_data, join_entry e.2)
                  <$> entries agents timed_out 0 ms ids); [done|].
  by rewrite entries_verdicts.
Qed.

Lemma verdicts_have_ids (ms : list message) (ids : list string) :
  Forall2 has_id ms ids →
  Forall2 has_id (imap (verdict agents timed_out) ms) ids.
Proof. apply imap_keeps_ids. intros j m id. apply annotate_has_id. Qed.

End DistinctIds.

(** ** The fan-out keyed by message id *)

Section FanOutById.
Variable agents : list scorer.
Variable timed_out : nat → nat → bool.

Local Abbreviation submit_agents := (submit_agents agents timed_out).
Local Abbreviation submit_all := (submit_all agents timed_out).
Local Abbreviation process_batch_parallel := (process_batch_parallel agents timed_out).
Local Abbreviation verdict := (verdict agents timed_out).
Local Abbreviation entries := (entries agents timed_out).
Local Abbreviation own_records := (own_records agents timed_out).

Lemma delivered_own (t : nat → bool) (m : message) (l : list scorer) :
  omap delivered
       (imap (λ j a, if t j then Raise TimeoutError else Ok (_process_message m a)) l)
  = omap id (imap (λ j a, if t j then None else Some (_process_message m a)) l).
Proof.
  revert t. induction l as [|a l IH]; intros t; simpl; [done|].
  destruct (t 0); simpl; [|f_equal]; exact (IH (t ∘ S)).
Qed.

Lemma collect_own_records i (m : message) :
  collect (submit_agents i m) = own_records i m.
Proof. rewrite collect_delivered. apply (delivered_own (timed_out i)). Qed.

Lemma verdict_annotated i (m : message) :
  annotated_with (own_records i m) m (verdict i m).
Proof.
  change (verdict i m) with (annotate m (collect (submit_agents i m))).
  rewrite collect_own_records.
  generalize (own_records i m) as records. intros records.
  unfold annotated_with. split_and!.
  - unfold annotate. rewrite !lookup_insert_ne by done. by rewrite lookup_insert_eq.
  - apply annotate_status.
  - unfold annotate. rewrite lookup_insert_ne by done. by rewrite lookup_insert_eq.
  - unfold annotate. by rewrite lookup_insert_eq.
  - intros k. apply annotate_other.
Qed.

(** C10.  When every message of the batch carries a str message id and the
    ids are pairwise distinct, the fan-out returns one message per input
    message, in input order, and the message at each place is the input
    message at that place with the verdict on its own delivered records
    written under the four fraud keys and nothing else changed.  When two
    messages share an id, the dict entry of that id ends up holding the
    message and the futures submitted last for it, so the earlier ones are
    never collected, and the returned list is shorter than the batch. *)
Theorem fan_out_by_message_id (ms : list message) (ids : list string) :
  Forall2 has_id ms ids →
  (NoDup ids →
     ∃ processed,
       process_batch_parallel ms = Ok processed
       ∧ length processed = length ms
       ∧ ∀ i m, ms !! i = Some m →
           ∃ m', processed !! i = Some m'
                 ∧ annotated_with (own_records i m) m m')
  ∧ (∀ i j id,
       i < j → ids !! i = Some id → ids !! j = Some id →
       ∃ future_to_msg processed,
         submit_all 0 ms [] = Ok future_to_msg
         ∧ process_batch_parallel ms = Ok processed
         ∧ length processed < length ms
         ∧ ∃ l m, j ≤ l ∧ ms !! l = Some m ∧ ids !! l = Some id
                  ∧ dict_get (KStr id) future_to_msg
                    = Some (mkData m (submit_agents l m))).
Proof.
  intros Hids. split.
  - intros Hnd. exists (imap verdict ms). split_and!.
    + by apply (process_batch_distinct _ _ ms ids).
    + apply length_imap.
    + intros i m Hm. exists (verdict i m). split.
      * by rewrite list_lookup_imap, Hm.
      * apply verdict_annotated.
  - intros i j id Hij Hi Hj.
    exists (build [] (entries 0 ms ids)),
           ((λ entry, join_entry entry.2) <$> build [] (entries 0 ms ids)).
    split_and!.
    + by apply submit_all_build.
    + by apply process_batch_build.
    + rewrite length_fmap, <- (entries_length agents timed_out 0 ms ids Hids).
      apply (build_duplicate _ i j id); [done|by rewrite entries_ids..].
    + destruct (build_get_last (V:=msg_data) [] (entries 0 ms ids) id)
        as (l & dat & Hl & Hlast & Hget).
      { rewrite entries_ids by done. by apply list_elem_of_lookup_2 in Hj. }
      destruct (entries_lookup _ _ _ _ _ _ _ _ Hl) as (m & Hm & Hidl & ->).
      exists l, m. split_and!; [|done..].
      destruct (decide (j ≤ l)) as [|Hlt]; [done|]. exfalso. apply Hlast.
      apply list_elem_of_lookup. exists (j - S l).
      rewrite fmap_drop, lookup_drop, entries_ids by done.
      by replace (S l + (j - S l)) with j by lia.
Qed.

End FanOutById.

Lemma fan_out_by_message_id_witness :
  Forall2 has_id [first_twin; second_twin] ["MSG001"; "MSG001"]
  ∧ ∃ processed,
      process_batch_parallel three_agents on_time [first_twin; second_twin]
      = Ok processed
      ∧ length processed < 2.
Proof.
  split; [exact twins_share_an_id|].
  destruct (proj2 (fan_out_by_message_id three_agents on_time
                     [first_twin; second_twin] ["MSG001"; "MSG001"]
                     twins_share_an_id)
              0 1 "MSG001" (le_n 1) eq_refl eq_refl)
    as (_ & processed & _ & Hrun & Hshort & _).
  exists processed. split; [exact Hrun | exact Hshort].
Defined.

(** Ids that are present and pairwise distinct, but lists: a list cannot
    be a dict key, and the fan-out raises instead of returning. *)
Lemma distinct_list_ids_stop_fan_out :
  list_id !! "message_id" = Some (VStrs ["MSG001"])
  ∧ other_list_id !! "message_id" = Some (VStrs ["MSG002"])
  ∧ process_batch_parallel three_agents on_time [list_id; other_list_id]
    = Raise TypeError.
Proof. split_and!; [reflexivity..|]. vm_compute. reflexivity. Qed.

Section Rescoring.
Variable rt : text.
Variable float_text : float → string.
Variable timed_out : nat → nat → bool.

Local Abbreviation agents := (list_of_agents rt float_text).

Lemma submit_agents_same_inputs i (m m' : message) :
  same_inputs m m' →
  submit_agents agents timed_out i m = submit_agents agents timed_out i m'.
Proof.
  intros H. unfold submit_agents. apply imap_ext. intros j a Ha.
  unfold submit. destruct (timed_out i j); [done|].
  f_equal. apply (process_message_same_inputs rt float_text); [done|].
  by apply list_elem_of_lookup_2 in Ha.
Qed.

Lemma verdict_verdict i (m : message) :
  verdict agents timed_out i (verdict agents timed_out i m)
  = verdict agents timed_out i m.
Proof.
  unfold verdict at 1 3.
  rewrite (submit_agents_same_inputs i (verdict agents timed_out i m) m)
    by apply annotate_same_inputs.
  apply annotate_annotate.
Qed.

(** X20.  Scoring a scored batch again changes nothing: for the three
    agents of the repository, a batch with pairwise distinct ids and a
    pool that behaves the same way both times, the fan-out applied to its
    own result returns that result. *)
Theorem fan_out_idempotent (ms : list message) (ids : list string) :
  Forall2 has_id ms ids →
  NoDup ids →
  ∃ processed,
    process_batch_parallel agents timed_out ms = Ok processed
    ∧ process_batch_parallel agents timed_out processed = Ok processed.
Proof.
  intros Hids Hnd. exists (imap (verdict agents timed_out) ms).
  split; [by apply (process_batch_distinct _ _ ms ids)|].
  rewrite (process_batch_distinct _ _ _ ids); [|by apply verdicts_have_ids|done].
  f_equal. apply list_eq. intros j. rewrite !list_lookup_imap.
  destruct (ms !! j) as [m|]; simpl; [|done]. by rewrite verdict_verdict.
Qed.

End Rescoring.

Section FanOutIds.
Variable agents : list scorer.
Variable timed_out : nat → nat → bool.

Local Abbreviation submit_all := (submit_all agents timed_out).
Local Abbreviation process_batch_parallel := (process_batch_parallel agents timed_out).

Lemma submit_all_raises i pre m post d e :
  Forall has_key pre → id_key m = Raise e →
  submit_all i (pre ++ m :: post) d = Raise e.
Proof.
  intros Hpre Hm. revert i d.
  induction Hpre as [|m0 pre [k Hk] _ IH]; intros i d; simpl.
  - by rewrite Hm.
  - rewrite Hk. simpl. apply IH.
Qed.

Lemma submit_all_returns i ms d :
  Forall has_key ms ↔ ∃ d', submit_all i ms d = Ok d'.
Proof.
  revert i d. induction ms as [|m ms IH]; intros i d; simpl.
  { split; [by eexists | constructor]. }
  split.
  - intros H. apply Forall_cons in H as [[k Hk] Hms]. rewrite Hk. simpl.
    by apply IH.
  - intros [d' H]. destruct (id_key m) as [k|e] eqn:Hk; simpl in H; [|done].
    constructor; [by exists k|]. eapply IH. by exists d'.
Qed.

Lemma process_batch_raises pre m post e :
  Forall has_key pre → id_key m = Raise e →
  process_batch_parallel (pre ++ m :: post) = Raise e.
Proof.
  intros Hpre Hm. unfold FanOut.process_batch_parallel.
  by rewrite (submit_all_raises 0 pre m post [] e).
Qed.

(** X21.  The fan-out returns exactly when every message of the batch has
    an id that can be a dict key.  Otherwise it raises, with nothing
    returned for the messages before: KeyError at the first message
    without a ['message_id'], TypeError at the first one whose id is a
    list. *)
Theorem fan_out_needs_ids (ms : list message) :
  (Forall has_key ms ↔ ∃ processed, process_batch_parallel ms = Ok processed)
  ∧ (∀ pre m post,
       ms = pre ++ m :: post → Forall has_key pre →
       (m !! "message_id" = None → process_batch_parallel ms = Raise KeyError)
       ∧ (∀ l, m !! "message_id" = Some (VStrs l) →
               process_batch_parallel ms = Raise TypeError)).
Proof.
  split.
  - rewrite (submit_all_returns 0 ms []). unfold FanOut.process_batch_parallel.
    split.
    + intros [d' ->]. simpl. by eexists.
    + intros [processed H]. destruct (submit_all 0 ms []) as [d'|e]; [by eexists|done].
  - intros pre m post -> Hpre. split.
    + intros Hm. apply process_batch_raises; [done|]. unfold id_key. by rewrite Hm.
    + intros l Hm. apply process_batch_raises; [done|]. unfold id_key. by rewrite Hm.
Qed.

End FanOutIds.

Example anonymous_message_stops_fan_out :
  process_batch_parallel three_agents on_time [first_twin; anonymous; other_wire]
  = Raise KeyError
  ∧ process_batch_parallel three_agents on_time [first_twin; list_id]
    = Raise TypeError.
Proof. split; vm_compute; reflexivity. Qed.

(** ** One verdict per id *)



Section DictOrder.
Context {V : Type}.
Implicit Types (d : list (key * V)) (es : list (string * V)).




End DictOrder.

Section OneVerdictPerId.
Variable agents : list scorer.
Variable timed_out : nat → nat → bool.

Local Abbreviation process_batch_parallel := (process_batch_parallel agents timed_out).
Local Abbreviation verdict := (verdict agents timed_out).
Local Abbreviation entries := (entries agents timed_out).




End OneVerdictPerId.

(** ** The two stages together *)

Lemma mark_status status errors (m : message) :
  mark status errors m !! "validation_status" = Some (VStr status).
Proof. unfold mark. rewrite lookup_insert_ne by done. apply lookup_insert_eq. Qed.

Lemma message_id_no_loop_key : "message_id" ∉ loop_keys.
Proof.
  unfold loop_keys. rewrite !not_elem_of_cons.
  split_and!; [done..|apply not_elem_of_nil].
Qed.

Section Pipeline.
Context {Σ : Type}.
Variable evaluation_oracle : Σ → message → Σ * result (bool * list string).
Variable correction_oracle :
  Σ → message → list string → Σ * result (option message).
Variable agents : list scorer.
Variable timed_out : nat → nat → bool.

Local Abbreviation evaluate_message := (evaluate_message evaluation_oracle).
Local Abbreviation optimize_message := (optimize_message correction_oracle).
Local Abbreviation iterate := (iterate evaluation_oracle correction_oracle).
Local Abbreviation correct_message := (correct_message evaluation_oracle correction_oracle).
Local Abbreviation process_with_evaluator_optimizer :=
  (process_with_evaluator_optimizer evaluation_oracle correction_oracle).
Local Abbreviation validate_then_score :=
  (Main.validate_then_score evaluation_oracle correction_oracle agents timed_out).

(** Iterations that may correct, followed by one that may not: whatever
    comes back is marked. *)
Lemma iterate_validated pre l (w : world) m m' :
  Forall (λ i, i < MAX_ITERATIONS - 1) pre → ¬ l < MAX_ITERATIONS - 1 →
  (iterate (pre ++ [l]) w m).2 = Ok m' → validated m'.
Proof.
  intros Hpre Hl. revert w m.
  induction Hpre as [|i pre Hi _ IH]; intros w m; simpl.
  - destruct (evaluate_message w m) as [w1 [[[] errors]|e]]; simpl; [| |done].
    + intros [= <-]. left. apply mark_status.
    + rewrite bool_decide_false by done. simpl. intros [= <-]. right.
      apply mark_status.
  - destruct (evaluate_message w m) as [w1 [[[] errors]|e]]; simpl; [| |done].
    + intros [= <-]. left. apply mark_status.
    + rewrite bool_decide_true by done.
      destruct (optimize_message w1 m errors) as [w2 m2]. apply IH.
Qed.

Lemma correct_message_validated (w : world) m m' :
  (correct_message w m).2 = Ok m' → validated m'.
Proof.
  apply (iterate_validated [0; 1] 2); unfold MAX_ITERATIONS; [|lia].
  repeat constructor.
Qed.

Lemma batch_validated (w : world) (ms out : list message) :
  replies_avoid correction_oracle "message_id" →
  (process_with_evaluator_optimizer w ms).2 = Ok out →
  Forall2 (λ m m', m' !! "message_id" = m !! "message_id" ∧ validated m') ms out.
Proof.
  intros Havoid. revert w out. induction ms as [|m rest IH]; intros w out; simpl.
  { intros [= <-]. constructor. }
  pose proof (iterate_keeps evaluation_oracle correction_oracle
                (seq 0 MAX_ITERATIONS) w m) as Hkeep.
  pose proof (correct_message_validated w m) as Hmark.
  unfold CorrectionLoop.correct_message in *.
  destruct (iterate _ w m) as [w1 [m1|e]]; simpl in *; [|done].
  specialize (IH w1).
  destruct (process_with_evaluator_optimizer w1 rest) as [w2 [rs|e2]];
    simpl in *; [|done].
  intros [= <-]. constructor; [|by apply IH]. split.
  - by apply (Hkeep m1 "message_id" message_id_no_loop_key Havoid).
  - by apply Hmark.
Qed.

(** X23.  Validation followed by scoring.  When the evaluation service
    always answers, no correction reply touches the id, and the ids of the
    batch are pairwise distinct, the two stages return one message per
    input message, in input order and under the same id, and every one of
    them carries both marks: a validation status VALID or INVALID and a
    fraud status CLEAN or FRAUDULENT. *)
Theorem validate_then_score_marks (w : world) (ms : list message) (ids : list string) :
  (∀ σ m, ∃ σ' verdict, evaluation_oracle σ m = (σ', Ok verdict)) →
  replies_avoid correction_oracle "message_id" →
  Forall2 has_id ms ids →
  NoDup ids →
  ∃ out, (validate_then_score w ms).2 = Ok out
         ∧ Forall2 has_id out ids
         ∧ Forall (λ m, validated m ∧ scored m) out.
Proof.
  intros Hev Havoid Hids Hnd.
  destruct (batch_returns evaluation_oracle correction_oracle w ms Hev)
    as (optimized & Hrun & _).
  pose proof (batch_validated w ms optimized Havoid Hrun) as Hval.
  assert (Forall2 has_id optimized ids) as Hids'.
  { clear Hrun Hnd. revert ids Hids.
    induction Hval as [|m m' ms ms' [Hid _] _ IH]; intros ids Hids.
    - inversion Hids. constructor.
    - inversion Hids as [|? id ? ids' Hm Hms]; subst.
      constructor; [|by apply IH]. unfold has_id in *. by rewrite Hid. }
  exists (imap (verdict agents timed_out) optimized). split_and!.
  - unfold Main.validate_then_score.
    destruct (process_with_evaluator_optimizer w ms) as [w' r].
    simpl in Hrun. subst r. simpl.
    by apply (process_batch_distinct _ _ _ ids).
  - by apply verdicts_have_ids.
  - apply Forall_lookup. intros j m' Hj. rewrite list_lookup_imap in Hj.
    destruct (optimized !! j) as [m|] eqn:Hm; simplify_eq/=.
    assert (validated m) as Hv.
    { destruct (Forall2_lookup_r _ _ _ _ _ Hval Hm) as (m0 & _ & _ & Hv). done. }
    split.
    + unfold validated, verdict. rewrite annotate_other; [done|].
      unfold fraud_keys. rewrite !not_elem_of_cons.
      split_and!; [done..|apply not_elem_of_nil].
    + unfold scored, verdict. rewrite annotate_status.
      destruct (is_fraudulent _); auto.
Qed.

End Pipeline.

Lemma agents_read_input_keys_witness :
  _process_message (annotate second_twin []) pattern_scorer
  = _process_message second_twin pattern_scorer.
Proof.
  apply (agents_read_input_keys ascii_text plain_text).
  - apply annotate_same_inputs.
  - unfold list_of_agents, pattern_scorer. right. left.
Defined.

Lemma distinct_wires : Forall2 has_id [first_twin; other_wire] ["MSG001"; "MSG002"].
Proof. repeat constructor. Qed.

Lemma distinct_wire_ids : NoDup ["MSG001"; "MSG002"].
Proof.
  rewrite !NoDup_cons, not_elem_of_cons.
  split_and!; [done|apply not_elem_of_nil..|constructor].
Qed.

Lemma fan_out_idempotent_witness :
  ∃ processed,
    process_batch_parallel three_agents on_time [first_twin; other_wire] = Ok processed
    ∧ process_batch_parallel three_agents on_time processed = Ok processed.
Proof.
  exact (fan_out_idempotent ascii_text plain_text on_time [first_twin; other_wire]
           ["MSG001"; "MSG002"] distinct_wires distinct_wire_ids).
Defined.


Lemma always_valid_answers :
  ∀ σ m, ∃ σ' verdict, always_valid σ m = (σ', Ok verdict).
Proof. intros σ m. by exists σ, (true, []). Qed.

Lemma service_down_avoids k : replies_avoid service_down k.
Proof. intros σ m errors σ' d. unfold service_down. intros [=]. Qed.

Lemma validate_then_score_marks_witness :
  ∃ out,
    (Main.validate_then_score always_valid service_down three_agents on_time
       fresh [first_twin; other_wire]).2 = Ok out
    ∧ Forall2 has_id out ["MSG001"; "MSG002"]
    ∧ Forall (λ m, validated m ∧ scored m) out.
Proof.
  exact (validate_then_score_marks always_valid service_down three_agents on_time
           fresh [first_twin; other_wire] ["MSG001"; "MSG002"]
           always_valid_answers (service_down_avoids "message_id")
           distinct_wires distinct_wire_ids).
Defined.

(** The two wires come back valid and clean. *)
Example two_wires_through_both_stages :
  (λ m, (m !! "message_id", m !! "validation_status", m !! "fraud_status"))
    <$> default []
          (match (Main.validate_then_score always_valid service_down three_agents
                    on_time fresh [first_twin; other_wire]).2 with
           | Ok out => Some out
           | Raise _ => None
           end)
  = [ (Some (VStr "MSG001"), Some (VStr "VALID"), Some (VStr "CLEAN"));
      (Some (VStr "MSG002"), Some (VStr "VALID"), Some (VStr "CLEAN")) ].
Proof. vm_compute. reflexivity. Qed.
